(** * mcp_snowflake_server.db_client: the [SnowflakeDB] session manager

    A shallow embedding of [src/mcp_snowflake_server/db_client.py] and the
    properties of its session check, its query adapter and its insight
    memo.

    Conventions of the embedding.
    - The [SnowflakeDB] object is a record threaded through a state-and-
      exception monad [M].  A Python [raise] of an instance of
      [Exception] is the outcome [Raise e]; [asyncio.CancelledError],
      which is a [BaseException] and passes every [except Exception] of
      the program, is the outcome [RaiseBase CancelledError].
    - Everything outside the repository (the Snowflake connector, the
      clock [time.time], [uuid.uuid4]) is an [Outside] record of functions
      over an arbitrary world type [W]: each call may fail or answer
      anything, and may change the world.  What the driver raises is an
      instance of [Exception], the class [except Exception] catches.
    - Clock readings are integers ([Z]), in seconds.
    - An [asyncio] task wrapping [_init_database] is an entry of the
      list of tasks created so far, with the event loop it was created
      on.  The state records which loop [asyncio.get_event_loop()]
      names where the caller stands; that loop runs its tasks when the
      caller suspends, tasks of other loops stay as they are, and a
      task can be cancelled through its handle.
    - The monad also carries a [trace] of observable actions (driver
      calls, log records, task runs, entry and exit of
      [_init_database]).  No definition reads the trace; it plays the
      part of a call-recording mock in the statements. *)

From Stdlib Require Import ZArith NArith String Ascii DecimalString DecimalNat.
From stdpp Require Import base gmap strings list.

Local Open Scope Z_scope.

(** ** Python values and exceptions *)

(** The cells of a result row.  [VOther] stands for any object of another
    type (float, date, Decimal, ...) with the text [str] gives it. *)
Inductive Value :=
| VNone
| VBool (b : bool)
| VInt (z : Z)
| VStr (s : string)
| VOther (text : string).

(** [str(v)], which is also what an f-string field [{v}] prints. *)
Definition str_value (v : Value) : string :=
  match v with
  | VNone => "None"
  | VBool true => "True"
  | VBool false => "False"
  | VInt z => NilZero.string_of_int (Z.to_int z)
  | VStr s => s
  | VOther text => text
  end.

(** [str(n)] for a length. *)
Definition str_nat (n : nat) : string := NilEmpty.string_of_uint (Nat.to_uint n).

(** A result row is a tuple. *)
Abbreviation row := (list Value).

Inductive exn_class :=
| ValueError
| ConnectionError
| AttributeError
| TypeError
| IndexError
| RuntimeError
| OtherError (name : string).

(** An exception object: its class, the text [str(e)], and the exception
    that was being handled when it was raised ([__context__]). *)
#[warnings="-register-all"]
Inductive exn : Type :=
  Exn { exn_class_of : exn_class; exn_text : string; exn_context : option exn }.

(** The exceptions that are not instances of [Exception].  The one the
    program can meet is [asyncio.CancelledError], which [await] raises
    on a cancelled task. *)
Inductive base_exception := CancelledError.

(** How a call ends: with a value, with an instance of [Exception], or
    with one of the exceptions [B] outside [Exception]. *)
Inductive outcome_of (B A : Type) :=
| Return (a : A)
| Raise (e : exn)
| RaiseBase (b : B).
Arguments Return {B A} a.
Arguments Raise {B A} e.
Arguments RaiseBase {B A} b.

(** A call into the driver answers or raises an instance of
    [Exception]; a coroutine or method of the client may also be left by
    [CancelledError]. *)
Abbreviation answer := (outcome_of Empty_set).
Abbreviation outcome := (outcome_of base_exception).

Definition of_answer {A} (o : answer A) : outcome A :=
  match o with
  | Return a => Return a
  | Raise x => Raise x
  | RaiseBase b => match b with end
  end.

(** ** The session object *)

(** Handles are opaque objects of the driver; the model names them. *)
Definition Conn := nat.
Definition Cur := nat.

(** One column descriptor ([ResultMetadata]); [desc[0]] is its name. *)
Record ResultMetadata := { md_name : string; md_type_code : Z }.

(** An [asyncio.Task] wrapping [_init_database()]: not done yet, not
    done yet with [cancel()] called on it, done with the exception it
    raised, if any, or cancelled. *)
Inductive task_state :=
| TaskPending
| TaskCancelling
| TaskDone (raised : option exn)
| TaskCancelled.

(** [task.done()] *)
Definition task_done (s : task_state) : bool :=
  match s with
  | TaskPending | TaskCancelling => false
  | TaskDone _ | TaskCancelled => true
  end.

(** A task and the event loop it was created on.  Loops are named by
    numbers. *)
Record task := Task { task_loop : nat; task_state_of : task_state }.

Record SnowflakeDB := {
  connection_config : gmap string string;
  connection : option Conn;
  cursor : option Cur;
  insights : list string;
  auth_time : Z;
  init_task : option nat  (* reference to a task of the event loop *)
}.

Definition AUTH_EXPIRATION_TIME : Z := 1800.

(** [SnowflakeDB.__init__] *)
Definition __init__ (connection_config : gmap string string) : SnowflakeDB :=
  {| connection_config := connection_config;
     connection := None;
     cursor := None;
     insights := [];
     auth_time := 0;
     init_task := None |}.

Definition set_connection (c : Conn) (s : SnowflakeDB) : SnowflakeDB :=
  {| connection_config := connection_config s; connection := Some c;
     cursor := cursor s; insights := insights s; auth_time := auth_time s;
     init_task := init_task s |}.

Definition set_cursor (c : Cur) (s : SnowflakeDB) : SnowflakeDB :=
  {| connection_config := connection_config s; connection := connection s;
     cursor := Some c; insights := insights s; auth_time := auth_time s;
     init_task := init_task s |}.

Definition set_auth_time (t : Z) (s : SnowflakeDB) : SnowflakeDB :=
  {| connection_config := connection_config s; connection := connection s;
     cursor := cursor s; insights := insights s; auth_time := t;
     init_task := init_task s |}.

Definition set_init_task (k : nat) (s : SnowflakeDB) : SnowflakeDB :=
  {| connection_config := connection_config s; connection := connection s;
     cursor := cursor s; insights := insights s; auth_time := auth_time s;
     init_task := Some k |}.

Definition set_insights (l : list string) (s : SnowflakeDB) : SnowflakeDB :=
  {| connection_config := connection_config s; connection := connection s;
     cursor := cursor s; insights := l; auth_time := auth_time s;
     init_task := init_task s |}.

(** ** Observable actions

    A log event records the call of the logger.  Whether a record is
    written depends on the logging level: under the module's own
    [logging.basicConfig(level=logging.INFO)] a call of [logger.error]
    writes one and a call of [logger.debug] writes none. *)

Inductive event :=
| EvInitEnter                  (* the body of [_init_database] starts *)
| EvInitExit (ok : bool)       (* ... and ends, normally or by raising *)
| EvConnect                    (* [snowflake.connector.connect(...)] *)
| EvCursor                     (* [connection.cursor()] *)
| EvExecute (sql : string)     (* [cursor.execute(sql)] *)
| EvFetchone
| EvFetchall
| EvDescription
| EvTime                       (* [time.time()] *)
| EvUuid4                      (* [uuid.uuid4()] *)
| EvAwait (k : nat)            (* [await self.init_task] on a task not done *)
| EvTaskRun (k : nat)          (* the event loop runs task [k] *)
| EvLogDebug (msg : string)    (* [logger.debug(msg)] is called *)
| EvLogError (msg : string).   (* [logger.error(msg)] is called *)

(** ** The outside world *)

Record Outside (W : Type) := {
  snowflake_connect : gmap string (option string) → W → answer Conn * W;
  conn_cursor : Conn → W → answer Cur * W;
  cur_execute : Cur → string → W → answer () * W;
  cur_fetchone : Cur → W → answer (option row) * W;
  cur_fetchall : Cur → W → answer (list row) * W;
  cur_description : Cur → W → answer (option (list ResultMetadata)) * W;
  time_time : W → Z * W;
  (* the 128-bit integer of a fresh [uuid.uuid4()] *)
  uuid_uuid4 : W → N * W;
  (* the text of the [RuntimeError] that [asyncio] raises in a coroutine
     awaiting task [k] of another event loop ("Task ... got Future ...
     attached to a different loop") *)
  different_loop_text : nat → string
}.
Arguments snowflake_connect {W} _ _ _.
Arguments conn_cursor {W} _ _ _.
Arguments cur_execute {W} _ _ _ _.
Arguments cur_fetchone {W} _ _ _.
Arguments cur_fetchall {W} _ _ _.
Arguments cur_description {W} _ _ _.
Arguments time_time {W} _ _.
Arguments uuid_uuid4 {W} _ _.
Arguments different_loop_text {W} _ _.

(** ** The monad: session object, world, event loop, trace *)

Record Env (W : Type) := {
  self : SnowflakeDB;
  world : W;
  loop : list task;         (* the tasks created so far, oldest first *)
  trace : list event;
  (* what [asyncio.get_event_loop()] does where the caller stands: inside
     a running loop it answers that loop; outside it answers the loop
     the policy holds for the thread, or raises.  The loops it answers
     are open: [create_task] on them succeeds. *)
  event_loop : answer nat
}.
Arguments self {W} _.
Arguments world {W} _.
Arguments loop {W} _.
Arguments trace {W} _.
Arguments event_loop {W} _.
Arguments Build_Env {W} _ _ _ _ _.

Definition M (W A : Type) : Type := Env W → outcome A * Env W.

Definition ret {W A} (a : A) : M W A := fun e => (Return a, e).

Definition raise {W A} (x : exn) : M W A := fun e => (Raise x, e).

Definition bind {W A B} (m : M W A) (f : A → M W B) : M W B :=
  fun e => match m e with
           | (Return a, e') => f a e'
           | (Raise x, e') => (Raise x, e')
           | (RaiseBase b, e') => (RaiseBase b, e')
           end.

(** [try: body  except Exception as x: handler x].  An exception that
    is not an instance of [Exception] passes. *)
Definition try_except {W A} (body : M W A) (handler : exn → M W A) : M W A :=
  fun e => match body e with
           | (Return a, e') => (Return a, e')
           | (Raise x, e') => handler x e'
           | (RaiseBase b, e') => (RaiseBase b, e')
           end.

Declare Scope py_scope.
Delimit Scope py_scope with py.
Notation "'let*' x := m 'in' k" := (bind m (fun x => k))
  (at level 10, x pattern, m at level 100, k at level 200) : py_scope.
Notation "m ;;; k" := (bind m (fun _ => k))
  (at level 100, right associativity) : py_scope.
Local Open Scope py_scope.

Definition get_self {W} : M W SnowflakeDB := fun e => (Return (self e), e).

Definition update_self {W} (f : SnowflakeDB → SnowflakeDB) : M W () :=
  fun e => (Return (),
            Build_Env (f (self e)) (world e) (loop e) (trace e) (event_loop e)).

Definition emit {W} (ev : event) : M W () :=
  fun e => (Return (),
            Build_Env (self e) (world e) (loop e) (trace e ++ [ev]) (event_loop e)).

(** A call into the driver, recorded as [ev]. *)
Definition call {W A} (ev : event) (f : W → answer A * W) : M W A :=
  fun e => let '(o, w) := f (world e) in
           (of_answer o,
            Build_Env (self e) w (loop e) (trace e ++ [ev]) (event_loop e)).

(** A call that cannot raise. *)
Definition call_total {W A} (ev : event) (f : W → A * W) : M W A :=
  fun e => let '(a, w) := f (world e) in
           (Return a,
            Build_Env (self e) w (loop e) (trace e ++ [ev]) (event_loop e)).

(** ** Dictionaries

    A [dict] keeps its keys in insertion order; assigning to a key that
    is present replaces the value and leaves the key where it is. *)
Abbreviation pydict := (list (string * Value)).

Fixpoint dict_setitem (k : string) (v : Value) (d : pydict) : pydict :=
  match d with
  | [] => [(k, v)]
  | (k', v') :: d' =>
      if String.eqb k k' then (k', v) :: d' else (k', v') :: dict_setitem k v d'
  end.

Fixpoint dict_get (k : string) (d : pydict) : option Value :=
  match d with
  | [] => None
  | (k', v') :: d' => if String.eqb k k' then Some v' else dict_get k d'
  end.

Definition dict_keys (d : pydict) : list string := map fst d.

(** [dict(pairs)]: the pairs are inserted from left to right. *)
Definition dict (pairs : list (string * Value)) : pydict :=
  fold_left (fun d kv => dict_setitem (fst kv) (snd kv) d) pairs [].

(** ** [str(uuid.UUID)]

    ['%032x' % self.int], cut as 8-4-4-4-12.  [hex_digits k n] are the [k]
    low hexadecimal digits of [n], most significant first; the integer of
    a UUID is below [2^128]. *)
Definition hex_digit (d : N) : ascii :=
  match d with
  | 0 => "0" | 1 => "1" | 2 => "2" | 3 => "3" | 4 => "4" | 5 => "5"
  | 6 => "6" | 7 => "7" | 8 => "8" | 9 => "9" | 10 => "a" | 11 => "b"
  | 12 => "c" | 13 => "d" | 14 => "e" | _ => "f"
  end%N%char.

Fixpoint hex_digits (k : nat) (n : N) : list ascii :=
  match k with
  | O => []
  | S k' => hex_digits k' (n / 16)%N ++ [hex_digit (n mod 16)%N]
  end.

Definition dash : ascii := "-"%char.

Definition uuid_groups (h : list ascii) : list ascii :=
  take 8 h ++ dash :: take 4 (drop 8 h) ++ dash :: take 4 (drop 12 h)
    ++ dash :: take 4 (drop 16 h) ++ dash :: drop 20 h.

Definition str_uuid (u : N) : string :=
  string_of_list_ascii (uuid_groups (hex_digits 32 u)).

Definition nl : string := String (ascii_of_nat 10) EmptyString.
Definition dquote : string := String (ascii_of_nat 34) EmptyString.

(** ** [class SnowflakeDB] *)

Section Client.
Context {W : Type} (out : Outside W).

(** The keyword arguments built at the top of [_init_database]:
    [connection_config.get(key)] is [None] for a missing key. *)
Definition conn_params (cfg : gmap string string) : gmap string (option string) :=
  list_to_map
    [("account", cfg !! "account");
     ("user", cfg !! "user");
     ("authenticator", Some "SNOWFLAKE_JWT");
     ("private_key_file", cfg !! "private_key_path");
     ("private_key_file_pwd", cfg !! "private_key_passphrase");
     ("warehouse", cfg !! "warehouse");
     ("database", cfg !! "database");
     ("schema", cfg !! "schema");
     ("role", cfg !! "role")].

Definition init_failure (e : exn) : exn :=
  Exn ValueError ("Failed to connect to Snowflake database: " +:+ exn_text e) (Some e).

Definition _init_database : M W () :=
  emit EvInitEnter ;;;
  try_except
    (let* s := get_self in
     let* c := call EvConnect (snowflake_connect out (conn_params (connection_config s))) in
     update_self (set_connection c) ;;;
     let* cu := call EvCursor (conn_cursor out c) in
     update_self (set_cursor cu) ;;;
     let* t := call_total EvTime (time_time out) in
     update_self (set_auth_time t) ;;;
     emit (EvInitExit true))
    (fun e => emit (EvInitExit false) ;;; raise (init_failure e)).

(** *** The event loop

    [_init_database] contains no [await], so a task wrapping it runs to
    completion in one step of its loop.  A task on which [cancel()] was
    called before that step is cancelled instead, and its coroutine
    never runs. *)
Definition run_task (k : nat) (s : task_state) : Env W → task_state * Env W :=
  fun e =>
    match s with
    | TaskPending =>
        let '(o, e1) := (emit (EvTaskRun k) ;;; _init_database) e in
        (match o with
         | Return _ => TaskDone None
         | Raise x => TaskDone (Some x)
         | RaiseBase CancelledError => TaskCancelled
         end, e1)
    | TaskCancelling => (TaskCancelled, e)
    | TaskDone _ | TaskCancelled => (s, e)
    end.

(** One turn of loop [l]: it runs those of its tasks that are not done,
    oldest first, and keeps what each one raised.  The tasks of other
    loops stay as they are. *)
Fixpoint run_pending (l k : nat) (ts : list task) (e : Env W)
  : list task * Env W :=
  match ts with
  | [] => ([], e)
  | t :: ts' =>
      let '(s, e1) :=
        if Nat.eqb (task_loop t) l then run_task k (task_state_of t) e
        else (task_state_of t, e) in
      let '(ts'', e') := run_pending l (S k) ts' e1 in
      (Task (task_loop t) s :: ts'', e')
  end.

(** The loop in which the caller runs.  Where [get_event_loop] names
    none, a coroutine is run by [asyncio.run] in a loop of its own, to
    which no task made before belongs. *)
Definition running_loop (e : Env W) : option nat :=
  match event_loop e with
  | Return l => Some l
  | _ => None
  end.


(** The caller suspends and its loop takes a turn. *)
Definition run_loop : M W () :=
  fun e => match running_loop e with
           | Some l =>
               let '(ts, e') := run_pending l 0 (loop e) e in
               (Return (),
                Build_Env (self e') (world e') ts (trace e') (event_loop e'))
           | None => (Return (), e)
           end.

(** [self.init_task.done()] is false *)
Definition task_pending (ts : list task) (k : nat) : bool :=
  match ts !! k with
  | Some t => negb (task_done (task_state_of t))
  | None => false
  end.

(** What [await task] gives once the loop has taken its turn: the
    exception of a done task is raised in the awaiting coroutine; a
    cancelled task raises [CancelledError]; a task that is still not
    done belongs to another loop, for which [asyncio] raises
    [RuntimeError] in the awaiting coroutine. *)
Definition task_result (k : nat) : M W () :=
  fun e => match task_state_of <$> loop e !! k with
           | Some (TaskDone (Some x)) => (Raise x, e)
           | Some TaskCancelled => (RaiseBase CancelledError, e)
           | Some TaskPending | Some TaskCancelling =>
               (Raise (Exn RuntimeError (different_loop_text out k) None), e)
           | Some (TaskDone None) | None => (Return (), e)
           end.

(** [await self.init_task] on a task that is not done *)
Definition await_task (k : nat) : M W () :=
  emit (EvAwait k) ;;; run_loop ;;; task_result k.

(** The state in which the awaiting coroutine goes on: the await is
    recorded and the loop has taken its turn. *)
Definition after_turn (k : nat) (e : Env W) : Env W :=
  snd (run_loop (snd (emit (EvAwait k) e))).

(** [start_init_connection]: the task is created on the loop that
    [asyncio.get_event_loop()] answers; when that call raises, so does
    the method. *)
Definition start_init_connection : M W nat :=
  fun e => match event_loop e with
           | Return l =>
               let k := length (loop e) in
               (Return k,
                Build_Env (set_init_task k (self e)) (world e)
                          (loop e ++ [Task l TaskPending]) (trace e) (event_loop e))
           | Raise x => (Raise x, e)
           | RaiseBase b => match b with end
           end.

(** [self.init_task and not self.init_task.done()]: the task to await *)
Definition pending_task (e : Env W) : option nat :=
  match init_task (self e) with
  | Some k => if task_pending (loop e) k then Some k else None
  | None => None
  end.

(** The [if]/[elif] that opens both [test_connection] (lines 56-60) and
    [execute_query] (lines 87-91).  [time.time()] is read only when a
    connection exists ([or] short-circuits). *)
Definition ensure_session : M W () :=
  let* pending := (fun e => (Return (pending_task e), e)) in
  match pending with
  | Some k => await_task k
  | None =>
      let* s := get_self in
      let* stale :=
        match connection s with
        | None => ret true
        | Some _ =>
            let* t := call_total EvTime (time_time out) in
            ret (AUTH_EXPIRATION_TIME <? t - auth_time s)
        end in
      if stale then _init_database else ret ()
  end.

(** [self.cursor.<attr>]: an attribute of [None] raises. *)
Definition cursor_attr (attr : string) : M W Cur :=
  let* s := get_self in
  match cursor s with
  | Some cu => ret cu
  | None =>
      raise (Exn AttributeError
               ("'NoneType' object has no attribute '" +:+ attr +:+ "'") None)
  end.

(** [role, database, schema = self.cursor.fetchone()] *)
Definition unpack3 (r : option row) : M W (Value * Value * Value) :=
  match r with
  | None => raise (Exn TypeError "cannot unpack non-iterable NoneType object" None)
  | Some [a; b; c] => ret (a, b, c)
  | Some (_ :: _ :: _ :: _ :: _) =>
      raise (Exn ValueError "too many values to unpack (expected 3)" None)
  | Some l =>
      raise (Exn ValueError
               ("not enough values to unpack (expected 3, got "
                  +:+ str_nat (length l) +:+ ")") None)
  end.

(** [[table[1] for table in tables]] *)
Fixpoint second_column (tables : list row) : M W (list Value) :=
  match tables with
  | [] => ret []
  | table :: rest =>
      match table !! 1%nat with
      | Some name =>
          let* names := second_column rest in ret (name :: names)
      | None => raise (Exn IndexError "tuple index out of range" None)
      end
  end.

Definition success_report (role database schema : Value) (table_list : list Value)
  : string :=
  "Connection successful!" +:+ nl +:+ "Role: " +:+ str_value role +:+ nl
    +:+ "Database: " +:+ str_value database +:+ nl
    +:+ "Schema: " +:+ str_value schema +:+ nl +:+ nl
    +:+ "Available tables:" +:+ nl
    +:+ String.concat nl (map (fun table => "- " +:+ str_value table) table_list).

(** Lines 62-71 of [test_connection]: the two probing queries and the
    report. *)
Definition test_queries : M W (bool * string) :=
  let* cu := cursor_attr "execute" in
  call (EvExecute "SELECT CURRENT_ROLE(), CURRENT_DATABASE(), CURRENT_SCHEMA()")
       (cur_execute out cu "SELECT CURRENT_ROLE(), CURRENT_DATABASE(), CURRENT_SCHEMA()") ;;;
  let* cu := cursor_attr "fetchone" in
  let* r := call EvFetchone (cur_fetchone out cu) in
  let* (role, database, schema) := unpack3 r in
  let* cu := cursor_attr "execute" in
  call (EvExecute "SHOW TABLES") (cur_execute out cu "SHOW TABLES") ;;;
  let* cu := cursor_attr "fetchall" in
  let* tables := call EvFetchall (cur_fetchall out cu) in
  let* table_list := second_column tables in
  ret (true, success_report role database schema table_list).

(** The [try] suite of [test_connection] *)
Definition test_connection_try : M W (bool * string) :=
  ensure_session ;;; test_queries.

Definition test_failure_message (e : exn) : string :=
  "Connection test failed: " +:+ exn_text e.

(** The [except] suite of [test_connection] *)
Definition report_failure (e : exn) : M W (bool * string) :=
  emit (EvLogError (test_failure_message e)) ;;;
  ret (false, test_failure_message e).

Definition test_connection : M W (bool * string) :=
  try_except test_connection_try report_failure.

(** The [try] suite of [execute_query] *)
Definition execute_query_try (query : string) : M W (list pydict * string) :=
  let* cu := cursor_attr "execute" in
  call (EvExecute query) (cur_execute out cu query) ;;;
  let* cu := cursor_attr "description" in
  let* description := call EvDescription (cur_description out cu) in
  let* columns :=
    match description with
    | Some descs => ret (map md_name descs)
    | None => raise (Exn TypeError "'NoneType' object is not iterable" None)
    end in
  let* cu := cursor_attr "fetchall" in
  let* rows := call EvFetchall (cur_fetchall out cu) in
  let result_rows := map (fun r => dict (zip columns r)) rows in
  let* u := call_total EvUuid4 (uuid_uuid4 out) in
  ret (result_rows, str_uuid u).

Definition query_failure_message (query : string) (e : exn) : string :=
  "Database error executing " +:+ dquote +:+ query +:+ dquote +:+ ": " +:+ exn_text e.

(** The [except] suite of [execute_query]: [logger.error(...)], [raise] *)
Definition log_and_reraise {A} (query : string) (e : exn) : M W A :=
  emit (EvLogError (query_failure_message query e)) ;;; raise e.

Definition execute_query (query : string) : M W (list pydict * string) :=
  ensure_session ;;;
  emit (EvLogDebug ("Executing query: " +:+ query)) ;;;
  try_except (execute_query_try query) (log_and_reraise query).

Definition add_insight (insight : string) : M W () :=
  update_self (fun s => set_insights (insights s ++ [insight]) s).

Definition memo_header : string :=
  "📊 Data Intelligence Memo 📊" +:+ nl +:+ nl
    +:+ "Key Insights Discovered:" +:+ nl +:+ nl.

Definition memo_summary (n : nat) : string :=
  nl +:+ nl +:+ "Summary:" +:+ nl +:+ "Analysis has revealed " +:+ str_nat n
    +:+ " key data insights that suggest opportunities for strategic optimization and growth.".

Definition get_memo : M W string :=
  let* s := get_self in
  match insights s with
  | [] => ret "No data insights have been discovered yet."
  | _ =>
      let memo := memo_header in
      let memo := memo +:+ String.concat nl (map (fun insight => "- " +:+ insight) (insights s)) in
      let memo :=
        if (1 <? length (insights s))%nat then memo +:+ memo_summary (length (insights s))
        else memo in
      ret memo
  end.

(** *** The public operations as one step function *)

Inductive op :=
| OpTestConnection
| OpExecuteQuery (query : string)
| OpAddInsight (insight : string)
| OpGetMemo
| OpStartInitConnection.

Inductive result :=
| RTest (success : bool) (message : string)
| RRows (result_rows : list pydict) (data_id : string)
| RNone
| RMemo (memo : string)
| RTask (k : nat).

Definition run_op (o : op) : M W result :=
  match o with
  | OpTestConnection => let* r := test_connection in ret (RTest (fst r) (snd r))
  | OpExecuteQuery query => let* r := execute_query query in ret (RRows (fst r) (snd r))
  | OpAddInsight insight => add_insight insight ;;; ret RNone
  | OpGetMemo => let* memo := get_memo in ret (RMemo memo)
  | OpStartInitConnection => let* k := start_init_connection in ret (RTask k)
  end.

Definition with_world (w : W) (e : Env W) : Env W :=
  Build_Env (self e) w (loop e) (trace e) (event_loop e).

(** The caller goes on in another event loop, or where there is none:
    what happens to the object when it is handed to [asyncio.run], which
    runs its coroutine in a new loop of its own. *)
Definition with_event_loop (l : answer nat) (e : Env W) : Env W :=
  Build_Env (self e) (world e) (loop e) (trace e) l.

(** [task.cancel()] on the handle that [start_init_connection] returned:
    a task that is not done is marked, and is cancelled when its loop
    next runs; a task that is done stays as it is. *)
Definition cancel_task (k : nat) (e : Env W) : Env W :=
  Build_Env (self e) (world e)
            (alter (fun t => match task_state_of t with
                             | TaskPending => Task (task_loop t) TaskCancelling
                             | _ => t
                             end) k (loop e))
            (trace e) (event_loop e).

(** The states an object can be in: it is constructed, the public
    operations run on it, the outside world changes between calls, the
    caller yields to its event loop, whose pending tasks then run, the
    caller cancels a task it holds, and the caller moves to another
    event loop. *)
Inductive reachable : Env W → Prop :=
| reach_new cfg w l : reachable (Build_Env (__init__ cfg) w [] [] l)
| reach_op o e : reachable e → reachable (snd (run_op o e))
| reach_world w e : reachable e → reachable (with_world w e)
| reach_yield e : reachable e → reachable (snd (run_loop e))
| reach_cancel k e : reachable e → reachable (cancel_task k e)
| reach_loop l e : reachable e → reachable (with_event_loop l e).

(** *** Reading the trace *)

(** The events a call added. *)
Definition new_events {A} (m : M W A) (e : Env W) : list event :=
  drop (length (trace e)) (trace (snd (m e))).

End Client.

Fixpoint count_events (p : event → bool) (d : list event) : nat :=
  match d with
  | [] => 0%nat
  | ev :: d' => ((if p ev then 1 else 0) + count_events p d')%nat
  end.

Definition is_init_enter (ev : event) : bool :=
  match ev with EvInitEnter => true | _ => false end.
Definition is_task_run (ev : event) : bool :=
  match ev with EvTaskRun _ => true | _ => false end.
Definition is_await (ev : event) : bool :=
  match ev with EvAwait _ => true | _ => false end.
Definition is_execute (ev : event) : bool :=
  match ev with EvExecute _ => true | _ => false end.

(** Events of the connection life cycle; the rest of the code is
    [quiet]. *)
Definition is_lifecycle (ev : event) : bool :=
  match ev with
  | EvInitEnter | EvInitExit _ | EvConnect | EvCursor | EvAwait _ | EvTaskRun _ => true
  | _ => false
  end.
Definition quiet (ev : event) : Prop := is_lifecycle ev = false.

(** How the most recent run of [_init_database] ended, if there was one. *)
Fixpoint last_init_exit (tr : list event) : option bool :=
  match tr with
  | [] => None
  | ev :: tr' =>
      match last_init_exit tr' with
      | Some ok => Some ok
      | None => match ev with EvInitExit ok => Some ok | _ => None end
      end
  end.

(** [part in whole] *)
Definition contains (part whole : string) : Prop :=
  ∃ before after, whole = before +:+ part +:+ after.

(** Each column name is bound to the value at its own position. *)
Definition bound_by_position (columns : list string) (r : row) (d : pydict) : Prop :=
  ∀ j c, columns !! j = Some c → dict_get c d = r !! j.

(** ** Relations between the states before and after a computation *)

Definition steps {W A} (R : relation (Env W)) (m : M W A) : Prop :=
  ∀ e, R e (snd (m e)).

(** The trace grew by events satisfying [P]. *)
Definition grows {W} (P : event → Prop) : relation (Env W) :=
  fun e e' => ∃ d, trace e' = trace e ++ d ∧ Forall P d.

(** The handles and the timestamp are the same. *)
Definition same_session {W} : relation (Env W) :=
  fun e e' => connection (self e') = connection (self e)
              ∧ cursor (self e') = cursor (self e)
              ∧ auth_time (self e') = auth_time (self e)
              ∧ connection_config (self e') = connection_config (self e).

Definition same_insights {W} : relation (Env W) :=
  fun e e' => insights (self e') = insights (self e).

Definition same_tasks {W} : relation (Env W) :=
  fun e e' => init_task (self e') = init_task (self e) ∧ loop e' = loop e.

(** Nothing of the connection life cycle happened. *)
Definition quietly {W} : relation (Env W) :=
  fun e e' => same_session e e' ∧ same_tasks e e' ∧ grows quiet e e'.

(** The trace grew as in a turn of the event loop: every run of
    [_init_database] in it is a task run, and nothing is awaited. *)
Definition by_loop_turn {W} : relation (Env W) :=
  fun e e' =>
    ∃ d, trace e' = trace e ++ d
         ∧ count_events is_init_enter d = count_events is_task_run d
         ∧ count_events is_await d = 0%nat.

(** ** Vocabulary of the statements *)

(** A property of every value a computation can return. *)
Definition returns {W A} (P : A → Prop) (m : M W A) : Prop :=
  ∀ e a e', m e = (Return a, e') → P a.

(** The driver refuses to open the session: [connect] raises [cause], or
    it answers and [connection.cursor()] raises [cause]; [w] is the world
    it leaves. *)
Definition driver_rejects {W} (out : Outside W) (e : Env W) (cause : exn) (w : W) : Prop :=
  let params := conn_params (connection_config (self e)) in
  snowflake_connect out params (world e) = (Raise cause, w)
  ∨ ∃ c w1, snowflake_connect out params (world e) = (Return c, w1)
            ∧ conn_cursor out c w1 = (Raise cause, w).

(** The report of the specification, in its words: every insight in log
    order, one per line, each after a dash. *)
Fixpoint insight_listing (l : list string) : string :=
  match l with
  | [] => ""
  | [insight] => "- " +:+ insight
  | insight :: rest => "- " +:+ insight +:+ nl +:+ insight_listing rest
  end.

(** The number a decimal numeral denotes. *)
Definition read_nat (s : string) : option nat :=
  match NilEmpty.uint_of_string s with
  | Some d => Some (Nat.of_uint d)
  | None => None
  end.

(** The value of the last pair with key [k]. *)
Fixpoint assoc_last (k : string) (pairs : list (string * Value)) : option Value :=
  match pairs with
  | [] => None
  | (k', v) :: rest =>
      match assoc_last k rest with
      | Some v' => Some v'
      | None => if String.eqb k k' then Some v else None
      end
  end.

(** The value of a hexadecimal digit. *)
Definition hex_value (a : ascii) : N :=
  match a with
  | "0" => 0 | "1" => 1 | "2" => 2 | "3" => 3 | "4" => 4 | "5" => 5
  | "6" => 6 | "7" => 7 | "8" => 8 | "9" => 9 | "a" => 10 | "b" => 11
  | "c" => 12 | "d" => 13 | "e" => 14 | _ => 15
  end%char%N.

(** The driver answers a query on the session of [e1]: [execute] returns,
    the descriptor is [descs], [fetchall] returns [rows], and [uuid4]
    then draws [u], leaving the world [w]. *)
Definition driver_answers {W} (out : Outside W) (query : string) (e1 : Env W)
    (descs : list ResultMetadata) (rows : list row) (u : N) (w : W) : Prop :=
  ∃ cu w1 w2 w3,
    cursor (self e1) = Some cu
    ∧ cur_execute out cu query (world e1) = (Return (), w1)
    ∧ cur_description out cu w1 = (Return (Some descs), w2)
    ∧ cur_fetchall out cu w2 = (Return rows, w3)
    ∧ uuid_uuid4 out w3 = (u, w).

(** The driver fails while the query runs on the session of [e1]:
    [execute] raises [x], or the descriptor does, or [fetchall] does;
    [w] is the world it leaves and [d] the driver calls made. *)
Definition driver_fails {W} (out : Outside W) (query : string) (e1 : Env W)
    (x : exn) (w : W) (d : list event) : Prop :=
  ∃ cu,
    cursor (self e1) = Some cu
    ∧ ((cur_execute out cu query (world e1) = (Raise x, w)
        ∧ d = [EvExecute query])
       ∨ (∃ w1, cur_execute out cu query (world e1) = (Return (), w1)
                ∧ cur_description out cu w1 = (Raise x, w)
                ∧ d = [EvExecute query; EvDescription])
       ∨ (∃ w1 descs w2,
             cur_execute out cu query (world e1) = (Return (), w1)
             ∧ cur_description out cu w1 = (Return (Some descs), w2)
             ∧ cur_fetchall out cu w2 = (Raise x, w)
             ∧ d = [EvExecute query; EvDescription; EvFetchall])).

(** The state in which the [try] suite of [execute_query] starts. *)
Definition after_debug_log {W} (query : string) (e1 : Env W) : Env W :=
  Build_Env (self e1) (world e1) (loop e1)
            (trace e1 ++ [EvLogDebug ("Executing query: " +:+ query)])
            (event_loop e1).

(** No connection handle, or more than 1800 seconds on the clock since
    the timestamp of the last successful authentication. *)
Definition session_stale {W} (out : Outside W) (e : Env W) : Prop :=
  connection (self e) = None
  ∨ AUTH_EXPIRATION_TIME < fst (time_time out (world e)) - auth_time (self e).

(** An initialization is pending: the object refers to a task, [k],
    that is not done. *)
Definition init_pending {W} (e : Env W) (k : nat) : Prop :=
  init_task (self e) = Some k
  ∧ ∃ t, loop e !! k = Some t ∧ task_done (task_state_of t) = false.


(** Task [k] belongs to the event loop in which the caller runs. *)
Definition on_running_loop {W} (e : Env W) (k : nat) : Prop :=
  ∃ t, loop e !! k = Some t ∧ event_loop e = Return (task_loop t).

(** What the session check promises of a call [m] started in [e].
    With an initialization pending as task [k]: the first thing the
    call does is to await [k], it awaits nothing else, and every run of
    [_init_database] during the call is a task run by the event loop
    (the call starts none itself); afterwards task [k] is done if it
    belongs to the caller's loop, and is what it was if it does not.
    With none pending: nothing is awaited, no task runs, and
    [_init_database] runs once if the session is stale and not at all if
    it is not. *)
Definition session_contract {W A} (out : Outside W) (m : M W A) (e : Env W) : Prop :=
  let d := new_events m e in
  (∀ k, init_pending e k →
        head d = Some (EvAwait k)
        ∧ count_events is_await d = 1%nat
        ∧ count_events is_init_enter d = count_events is_task_run d
        ∧ (on_running_loop e k →
           ∃ t, loop (snd (m e)) !! k = Some t
                ∧ task_done (task_state_of t) = true)
        ∧ (¬ on_running_loop e k → loop (snd (m e)) !! k = loop e !! k))
  ∧ ((∀ k, ¬ init_pending e k) →
     count_events is_await d = 0%nat
     ∧ count_events is_task_run d = 0%nat
     ∧ (session_stale out e → count_events is_init_enter d = 1%nat)
     ∧ (¬ session_stale out e → count_events is_init_enter d = 0%nat)).

(** How the handles move when the trace grows by [d]: the cursor exists
    afterwards exactly if it existed before or an initialization
    succeeded in between; a connection handle is never dropped, and
    exists after any successful initialization. *)
Definition lifecycle {W} : relation (Env W) :=
  fun e e' =>
    ∃ d, trace e' = trace e ++ d
         ∧ (is_Some (cursor (self e'))
            ↔ is_Some (cursor (self e)) ∨ EvInitExit true ∈ d)
         ∧ (is_Some (connection (self e)) → is_Some (connection (self e')))
         ∧ (EvInitExit true ∈ d → is_Some (connection (self e'))).

(** ** The bootstrap script [test_connection.py]

    [environ] is the process environment as [dotenv.load_dotenv()] leaves
    it; [os.getenv(name)] is a lookup in it.  The names the script
    converts with [upper] and [lower] are ASCII. *)

(** [str.upper] and [str.lower] on ASCII text *)
Definition ascii_upper (a : ascii) : ascii :=
  let n := nat_of_ascii a in
  if ((97 <=? n) && (n <=? 122))%nat then ascii_of_nat (n - 32) else a.

Definition ascii_lower (a : ascii) : ascii :=
  let n := nat_of_ascii a in
  if ((65 <=? n) && (n <=? 90))%nat then ascii_of_nat (n + 32) else a.

Fixpoint str_upper (s : string) : string :=
  match s with
  | EmptyString => EmptyString
  | String a s' => String (ascii_upper a) (str_upper s')
  end.

Fixpoint str_lower (s : string) : string :=
  match s with
  | EmptyString => EmptyString
  | String a s' => String (ascii_lower a) (str_lower s')
  end.

(** The value of [os.getenv(name)] when it is truthy: set and not the
    empty string. *)
Definition getenv_truthy (environ : gmap string string) (name : string) : option string :=
  match environ !! name with
  | Some (String a v) => Some (String a v)
  | _ => None
  end.

(** [config[key] = os.getenv(name)] under [if os.getenv(name)] *)
Definition set_if_truthy (environ : gmap string string) (key name : string)
    (config : gmap string string) : gmap string string :=
  match getenv_truthy environ name with
  | Some v => <[key := v]> config
  | None => config
  end.

(** Lines 11-21 of [main]: the dictionary comprehension over the six
    names, then the two private-key entries. *)
Definition connection_config_of (environ : gmap string string) : gmap string string :=
  let connection_config :=
    foldl (fun config k =>
             set_if_truthy environ (str_lower k) ("SNOWFLAKE_" +:+ str_upper k) config)
          ∅ ["account"; "user"; "database"; "schema"; "warehouse"; "role"] in
  let connection_config :=
    set_if_truthy environ "private_key_path" "SNOWFLAKE_PRIVATE_KEY_PATH"
      connection_config in
  set_if_truthy environ "private_key_passphrase" "SNOWFLAKE_PRIVATE_KEY_PASSPHRASE"
    connection_config.

Section Bootstrap.
Context {W : Type} (out : Outside W).

(** [asyncio.run(main())] in world [w]: a new event loop [l], a new
    object, one [test_connection], and the arguments of the calls of
    [print], one element per call. *)
Definition main (environ : gmap string string) (w : W) (l : nat)
  : outcome () * list string * Env W :=
  let db := __init__ (connection_config_of environ) in
  match test_connection out (Build_Env db w [] [] (Return l)) with
  | (Return (success, message), e) => (Return (), [message], e)
  | (Raise x, e) => (Raise x, [], e)
  | (RaiseBase b, e) => (RaiseBase b, [], e)
  end.

End Bootstrap.

(** ** More vocabulary *)


(** The SQL texts an operation may hand to the driver. *)
Definition sql_of (o : op) : list string :=
  match o with
  | OpTestConnection =>
      ["SELECT CURRENT_ROLE(), CURRENT_DATABASE(), CURRENT_SCHEMA()"; "SHOW TABLES"]
  | OpExecuteQuery query => [query]
  | _ => []
  end.

(** An event that is not an [execute], or is one of the texts [allowed]. *)
Definition sends_only (allowed : list string) (ev : event) : Prop :=
  match ev with
  | EvExecute sql => sql ∈ allowed
  | _ => True
  end.



(** The records written when the module's own
    [logging.basicConfig(level=logging.INFO)] is in force: those of
    [logger.error]; a [logger.debug] call is below the level and writes
    nothing. *)
Fixpoint log_records (d : list event) : list string :=
  match d with
  | [] => []
  | EvLogError msg :: d' => msg :: log_records d'
  | _ :: d' => log_records d'
  end.

(** The trace grew, and the timestamp moved only if an initialization
    succeeded in between. *)
Definition timestamp_kept {W} : relation (Env W) :=
  fun e e' =>
    ∃ d, trace e' = trace e ++ d
         ∧ (EvInitExit true ∉ d → auth_time (self e') = auth_time (self e)).

Definition same_config {W} : relation (Env W) :=
  fun e e' => connection_config (self e') = connection_config (self e).

(** The driver answers the two statements of [test_connection] on the
    session of [e1]: the first row is [(role, database, schema)] and
    [SHOW TABLES] returns [tables]; [w] is the world it leaves. *)
Definition driver_reports {W} (out : Outside W) (e1 : Env W)
    (role database schema : Value) (tables : list row) (w : W) : Prop :=
  ∃ cu w1 w2 w3,
    cursor (self e1) = Some cu
    ∧ cur_execute out cu "SELECT CURRENT_ROLE(), CURRENT_DATABASE(), CURRENT_SCHEMA()"
        (world e1) = (Return (), w1)
    ∧ cur_fetchone out cu w1 = (Return (Some [role; database; schema]), w2)
    ∧ cur_execute out cu "SHOW TABLES" w2 = (Return (), w3)
    ∧ cur_fetchall out cu w3 = (Return tables, w).

(** [table[1]] of a row that has it *)
Definition second (table : row) : Value := default VNone (table !! 1%nat).

(** [str.splitlines] for text whose only line break is the newline, kept
    simple: the pieces between newlines. *)
Fixpoint split_lines (s : string) : list string :=
  match s with
  | EmptyString => [EmptyString]
  | String a s' =>
      if Ascii.eqb a (ascii_of_nat 10) then EmptyString :: split_lines s'
      else match split_lines s' with
           | line :: lines => String a line :: lines
           | [] => [String a EmptyString]
           end
  end.

(** No newline in the text. *)
Fixpoint one_line (s : string) : bool :=
  match s with
  | EmptyString => true
  | String a s' => negb (Ascii.eqb a (ascii_of_nat 10)) && one_line s'
  end.

(** Reading a memo back: the text of a listing line after its dash, *)
Definition after_dash (line : string) : option string :=
  match line with
  | String "-" (String " " insight) => Some insight
  | _ => None
  end.

(** the insights of the lines up to the first line without a dash, *)
Fixpoint read_listing (lines : list string) : list string :=
  match lines with
  | line :: rest =>
      match after_dash line with
      | Some insight => insight :: read_listing rest
      | None => []
      end
  | [] => []
  end.

Fixpoint string_drop (n : nat) (s : string) : string :=
  match n, s with
  | S n', String _ s' => string_drop n' s'
  | _, _ => s
  end.

(** and the log a memo shows: nothing for the placeholder, else the
    listing that follows the header. *)
Definition read_memo (memo : string) : list string :=
  if String.eqb memo "No data insights have been discovered yet." then []
  else read_listing (split_lines (string_drop (String.length memo_header) memo)).

(** An event of the session check itself: the connection life cycle or
    a reading of the clock. *)
Definition check_event (ev : event) : Prop := is_lifecycle ev = true ∨ ev = EvTime.

(** The calls of [m] follow the script [L]: they are the events of [L]
    in order, all of them when [m] returns and an initial part of them
    when it raises. *)
Definition follows_script {W A} (L : list event) (m : M W A) : Prop :=
  ∀ e, ∃ d, trace (snd (m e)) = trace e ++ d
            ∧ match fst (m e) with
              | Return _ => d = L
              | Raise _ | RaiseBase _ => d `prefix_of` L
              end.

(** [m] is never left by an exception outside [Exception]. *)
Definition never_base {W A} (m : M W A) : Prop :=
  ∀ e b e', m e ≠ (RaiseBase b, e').

(** ** A scripted driver

    A world whose driver answers from a script: used to run the client
    on concrete inputs. *)
Module Mock.

Record world := {
  now : Z;                              (* what [time.time()] reads *)
  connect_raises : option exn;
  cursor_raises : option exn;
  execute_raises : option exn;
  description : option (list ResultMetadata);
  one : option row;                     (* what [fetchone()] returns *)
  rows : list row;                      (* what [fetchall()] returns *)
  next_uuid : N;
  next_handle : nat
}.

Definition fresh_handle (w : world) : nat * world :=
  (next_handle w,
   {| now := now w; connect_raises := connect_raises w;
      cursor_raises := cursor_raises w; execute_raises := execute_raises w;
      description := description w; one := one w; rows := rows w;
      next_uuid := next_uuid w; next_handle := S (next_handle w) |}).

Definition or_raise {A} (r : option exn) (f : world → A * world) (w : world)
  : answer A * world :=
  match r with
  | Some e => (Raise e, w)
  | None => let '(a, w') := f w in (Return a, w')
  end.

Definition driver : Outside world := {|
  snowflake_connect := fun _ w => or_raise (connect_raises w) fresh_handle w;
  conn_cursor := fun _ w => or_raise (cursor_raises w) fresh_handle w;
  cur_execute := fun _ _ w => or_raise (execute_raises w) (fun w => ((), w)) w;
  cur_fetchone := fun _ w => (Return (one w), w);
  cur_fetchall := fun _ w => (Return (rows w), w);
  cur_description := fun _ w => (Return (description w), w);
  time_time := fun w => (now w, w);
  uuid_uuid4 := fun w =>
    (next_uuid w,
     {| now := now w; connect_raises := connect_raises w;
        cursor_raises := cursor_raises w; execute_raises := execute_raises w;
        description := description w; one := one w; rows := rows w;
        next_uuid := N.succ (next_uuid w); next_handle := next_handle w |});
  different_loop_text := fun k =>
    "Task <Task pending name='Task-1' coro=<SnowflakeDB.execute_query()>> got Future <Task pending name='Task-"
      +:+ str_nat k +:+ "' coro=<SnowflakeDB._init_database()>> attached to a different loop"
|}.

(** A healthy server at time [t] answering every query with the two-row
    table of the specification's example. *)
Definition healthy (t : Z) : world :=
  {| now := t; connect_raises := None; cursor_raises := None;
     execute_raises := None;
     description := Some [ {| md_name := "id"; md_type_code := 0 |};
                           {| md_name := "name"; md_type_code := 2 |} ];
     one := Some [VStr "ANALYST"; VStr "SALES"; VStr "PUBLIC"];
     rows := [[VInt 1; VStr "a"]; [VInt 2; VStr "b"]];
     next_uuid := 0x123e4567e89b42d3a456426614174000%N;
     next_handle := 0 |}.

Definition driver_error (text : string) : exn :=
  Exn (OtherError "DatabaseError") text None.

(** The same server refusing connections. *)
Definition unreachable (t : Z) : world :=
  {| now := t; connect_raises := Some (driver_error "250001: Could not connect");
     cursor_raises := None; execute_raises := None; description := None;
     one := None; rows := []; next_uuid := 7; next_handle := 0 |}.

(** A healthy server answering with two columns of the same name, as for
    [SELECT 1 AS a, 2 AS a]. *)
Definition duplicated (t : Z) : world :=
  {| now := t; connect_raises := None; cursor_raises := None;
     execute_raises := None;
     description := Some [ {| md_name := "a"; md_type_code := 0 |};
                           {| md_name := "a"; md_type_code := 0 |} ];
     one := None;
     rows := [[VInt 1; VInt 2]];
     next_uuid := 0x123e4567e89b42d3a456426614174000%N;
     next_handle := 0 |}.

(** A healthy server on which the statement fails. *)
Definition failing_query (t : Z) : world :=
  {| now := t; connect_raises := None; cursor_raises := None;
     execute_raises := Some (driver_error "001003 (42000): SQL compilation error");
     description := None; one := None; rows := [];
     next_uuid := 7; next_handle := 0 |}.

(** A fresh object on world [w], in the running event loop 0. *)
Definition start (cfg : gmap string string) (w : world) : Env world :=
  Build_Env (__init__ cfg) w [] [] (Return 0%nat).

(** A session opened on a healthy server. *)
Definition opened : Env world :=
  snd (run_op driver (OpExecuteQuery "SELECT 1") (start ∅ (healthy 1700000000))).

(** The same session after a second query, 4000 seconds later, found
    the server unreachable. *)
Definition after_outage : Env world :=
  snd (run_op driver (OpExecuteQuery "SELECT 1")
         (with_world (unreachable 1700004000) opened)).

(** A server that accepts the connection and then fails to open a
    cursor. *)
Definition cursorless (t : Z) : world :=
  {| now := t; connect_raises := None;
     cursor_raises := Some (driver_error "390114: Authentication token has expired");
     execute_raises := None; description := None; one := None; rows := [];
     next_uuid := 7; next_handle := 5 |}.

(** A healthy server whose rows do not have one value per column. *)
Definition ragged (t : Z) : world :=
  {| now := t; connect_raises := None; cursor_raises := None;
     execute_raises := None;
     description := Some [ {| md_name := "id"; md_type_code := 0 |};
                           {| md_name := "name"; md_type_code := 2 |} ];
     one := Some [VStr "ANALYST"; VStr "SALES"];
     rows := [[VInt 1]; [VInt 2; VStr "b"; VStr "surplus"]];
     next_uuid := 0x123e4567e89b42d3a456426614174000%N;
     next_handle := 0 |}.

(** A healthy server running a statement that has no result set. *)
Definition no_result_set (t : Z) : world :=
  {| now := t; connect_raises := None; cursor_raises := None;
     execute_raises := None; description := None; one := None; rows := [];
     next_uuid := 7; next_handle := 0 |}.

(** A process environment. *)
Definition environ : gmap string string :=
  {[ "SNOWFLAKE_ACCOUNT" := "acme-eu1"; "SNOWFLAKE_USER" := "ANALYST";
     "SNOWFLAKE_WAREHOUSE" := ""; "SNOWFLAKE_PRIVATE_KEY_PATH" := "/keys/rsa_key.p8";
     "HOME" := "/root" ]}.


(** An object whose background initialization was started on loop 0 and
    which is then used in loop 1, as by [asyncio.run]. *)
Definition moved : Env world :=
  with_event_loop (Return 1%nat)
    (snd (start_init_connection (start ∅ (healthy 1700000000)))).

(** An object whose first query found a server that accepts the
    connection and fails to open a cursor. *)
Definition half_open : Env world :=
  snd (run_op driver (OpExecuteQuery "SELECT 1") (start ∅ (cursorless 1700000000))).

End Mock.

(** * Properties *)

(** ** Stepping through the monad *)

Section Steps.
Context {W : Type}.

Global Instance grows_preorder (P : event → Prop) : PreOrder (@grows W P).
Proof.
  split.
  - intros e. exists []. by rewrite app_nil_r.
  - intros e1 e2 e3 [d1 [H1 F1]] [d2 [H2 F2]]. exists (d1 ++ d2). split.
    + by rewrite H2, H1, app_assoc.
    + by apply Forall_app.
Qed.

Global Instance same_session_preorder : PreOrder (@same_session W).
Proof.
  split; [by intros e|].
  intros e1 e2 e3 (?&?&?&?) (?&?&?&?). repeat split; congruence.
Qed.

Global Instance same_insights_preorder : PreOrder (@same_insights W).
Proof. split; [by intros e|]. intros e1 e2 e3 ? ?. unfold same_insights in *. congruence. Qed.

Global Instance same_tasks_preorder : PreOrder (@same_tasks W).
Proof.
  split; [by intros e|].
  intros e1 e2 e3 [??] [??]. split; congruence.
Qed.

Global Instance quietly_preorder : PreOrder (@quietly W).
Proof.
  split.
  - intros e. split; [|split]; reflexivity.
  - intros e1 e2 e3 (?&?&?) (?&?&?). split; [|split]; etransitivity; eauto.
Qed.

Lemma steps_ret (R : relation (Env W)) `{!Reflexive R} {A} (a : A) : steps R (ret a).
Proof. intros e. reflexivity. Qed.

Lemma steps_raise (R : relation (Env W)) `{!Reflexive R} {A} x : steps R (@raise W A x).
Proof. intros e. reflexivity. Qed.

Lemma steps_get_self (R : relation (Env W)) `{!Reflexive R} : steps R get_self.
Proof. intros e. reflexivity. Qed.

Lemma steps_bind (R : relation (Env W)) `{!Transitive R} {A B}
    (m : M W A) (f : A → M W B) :
  steps R m → (∀ a, steps R (f a)) → steps R (bind m f).
Proof.
  intros Hm Hf e. unfold bind. specialize (Hm e).
  destruct (m e) as [[a|x|b] e1]; simpl in *; [|done..].
  etransitivity; [exact Hm | apply Hf].
Qed.

Lemma steps_try_except (R : relation (Env W)) `{!Transitive R} {A}
    (m : M W A) (h : exn → M W A) :
  steps R m → (∀ x, steps R (h x)) → steps R (try_except m h).
Proof.
  intros Hm Hh e. unfold try_except. specialize (Hm e).
  destruct (m e) as [[a|x|b] e1]; simpl in *; [done| |done].
  etransitivity; [exact Hm | apply Hh].
Qed.

Lemma quietly_emit ev : quiet ev → steps quietly (@emit W ev).
Proof.
  intros Hq e. repeat split. exists [ev]. split; [done|]. by constructor.
Qed.

Lemma quietly_call {A} ev (f : W → answer A * W) :
  quiet ev → steps quietly (call ev f).
Proof.
  intros Hq e. unfold call. destruct (f (world e)) as [o w]. repeat split.
  exists [ev]. split; [done|]. by constructor.
Qed.

Lemma quietly_call_total {A} ev (f : W → A * W) :
  quiet ev → steps quietly (call_total ev f).
Proof.
  intros Hq e. unfold call_total. destruct (f (world e)) as [o w]. repeat split.
  exists [ev]. split; [done|]. by constructor.
Qed.

Lemma same_insights_emit ev : steps same_insights (@emit W ev).
Proof. by intros e. Qed.

Lemma same_insights_call {A} ev (f : W → answer A * W) :
  steps same_insights (call ev f).
Proof. intros e. unfold call. by destruct (f (world e)). Qed.

Lemma same_insights_call_total {A} ev (f : W → A * W) :
  steps same_insights (call_total ev f).
Proof. intros e. unfold call_total. by destruct (f (world e)). Qed.

Lemma same_insights_update (f : SnowflakeDB → SnowflakeDB) :
  (∀ s, insights (f s) = insights s) → steps same_insights (@update_self W f).
Proof. intros Hf e. apply Hf. Qed.

End Steps.

Create HintDb steps discriminated.
#[export] Hint Resolve steps_ret steps_raise steps_get_self : steps.
#[export] Hint Resolve quietly_emit quietly_call quietly_call_total : steps.
#[export] Hint Extern 1 (quiet _) => reflexivity : steps.
#[export] Hint Resolve same_insights_emit same_insights_call same_insights_call_total
  same_insights_update : steps.

(** Goes through binds and handlers, leaving the primitive steps to the
    hint base. *)
Ltac step_through :=
  repeat first
    [ solve [eauto with steps typeclass_instances]
    | apply steps_bind; [typeclasses eauto | | intros ?]
    | apply steps_try_except; [typeclasses eauto | | intros ?]
    | match goal with |- steps _ (match ?x with _ => _ end) => destruct x end
    | done ].

Section InitDatabase.
Context {W : Type} (out : Outside W).

(** What [_init_database] does, by the answers of the driver. *)
Lemma init_database_cases (e : Env W) :
  match snowflake_connect out (conn_params (connection_config (self e))) (world e) with
  | (Raise x, w1) =>
      _init_database out e =
        (Raise (init_failure x),
         Build_Env (self e) w1 (loop e)
                   (trace e ++ [EvInitEnter; EvConnect; EvInitExit false])
                   (event_loop e))
  | (Return c, w1) =>
      match conn_cursor out c w1 with
      | (Raise x, w2) =>
          _init_database out e =
            (Raise (init_failure x),
             Build_Env (set_connection c (self e)) w2 (loop e)
                       (trace e ++ [EvInitEnter; EvConnect; EvCursor; EvInitExit false])
                       (event_loop e))
      | (Return cu, w2) =>
          _init_database out e =
            (Return (),
             Build_Env (set_auth_time (fst (time_time out w2))
                          (set_cursor cu (set_connection c (self e))))
                       (snd (time_time out w2)) (loop e)
                       (trace e ++ [EvInitEnter; EvConnect; EvCursor; EvTime;
                                    EvInitExit true])
                       (event_loop e))
      | (RaiseBase b, _) => match b with end
      end
  | (RaiseBase b, _) => match b with end
  end.
Proof.
  unfold _init_database, bind, try_except, emit, call, call_total, get_self,
    update_self, ret, raise; simpl.
  destruct (snowflake_connect out _ (world e)) as [[c|x|[]] w1]; simpl.
  - destruct (conn_cursor out c w1) as [[cu|x|[]] w2]; simpl.
    + destruct (time_time out w2) as [t w3]; simpl.
      by rewrite <- !app_assoc.
    + by rewrite <- !app_assoc.
  - by rewrite <- !app_assoc.
Qed.

(** [_init_database] is left by a value or by an instance of
    [Exception]. *)
Lemma init_database_never_base : never_base (_init_database out).
Proof.
  intros e b e' Hb. pose proof (init_database_cases e) as H.
  destruct (snowflake_connect out _ (world e)) as [[c|x|[]] w1];
    [destruct (conn_cursor out c w1) as [[cu|x|[]] w2]|]; congruence.
Qed.

End InitDatabase.

Section Quiet.
Context {W : Type} (out : Outside W).

Lemma cursor_attr_quietly attr : steps quietly (@cursor_attr W attr).
Proof. unfold cursor_attr. step_through. Qed.

Lemma unpack3_quietly r : steps quietly (@unpack3 W r).
Proof. unfold unpack3. step_through. Qed.

Lemma second_column_quietly tables : steps quietly (@second_column W tables).
Proof. induction tables as [|table rest IH]; simpl; step_through. Qed.

Lemma test_queries_quietly : steps quietly (test_queries out).
Proof.
  pose proof cursor_attr_quietly. pose proof unpack3_quietly.
  pose proof second_column_quietly.
  unfold test_queries. step_through.
Qed.

Lemma execute_query_try_quietly query : steps quietly (execute_query_try out query).
Proof.
  pose proof cursor_attr_quietly.
  unfold execute_query_try. step_through.
Qed.

End Quiet.

(** ** Text *)

Lemma append_nil_r (s : string) : s +:+ "" = s.
Proof.
  induction s as [|a s IH]; [done|].
  change (String a (s +:+ "") = String a s). by rewrite IH.
Qed.

Lemma append_assoc (s t u : string) : (s +:+ t) +:+ u = s +:+ t +:+ u.
Proof.
  induction s as [|a s IH]; [done|].
  change (String a ((s +:+ t) +:+ u) = String a (s +:+ t +:+ u)). by rewrite IH.
Qed.

Lemma contains_suffix (before part : string) : contains part (before +:+ part).
Proof. exists before, ""%string. by rewrite append_nil_r. Qed.


(** ** Initialize *)

Section Initialize.
Context {W : Type} (out : Outside W).

(** C6.  When the driver's open-connection call raises (as it does for a
    configuration lacking required credentials), [_init_database] fails
    and the session object is exactly what it was: same connection
    handle, same cursor handle, same authentication timestamp. *)
Theorem C6_failed_connect_leaves_session (e : Env W) (cause : exn) (w1 : W) :
  snowflake_connect out (conn_params (connection_config (self e))) (world e)
    = (Raise cause, w1) →
  ∃ x e', _init_database out e = (Raise x, e')
          ∧ self e' = self e
          ∧ connection (self e') = connection (self e)
          ∧ cursor (self e') = cursor (self e)
          ∧ auth_time (self e') = auth_time (self e).
Proof.
  intros Hc. pose proof (init_database_cases out e) as H. rewrite Hc in H.
  eexists _, _. split; [exact H|]. done.
Qed.

Lemma init_database_rejected (e : Env W) (cause : exn) (w : W) :
  driver_rejects out e cause w →
  ∃ e', _init_database out e = (Raise (init_failure cause), e').
Proof.
  intros Hrej. pose proof (init_database_cases out e) as H.
  destruct Hrej as [Hc | (c & w1 & Hc & Hcu)].
  - rewrite Hc in H. eexists. exact H.
  - rewrite Hc, Hcu in H. eexists. exact H.
Qed.

(** C5 (amended).  For every failure of the driver during Initialize (the
    open-connection call or the open-cursor call raises [cause]),
    [_init_database] raises a [ValueError] whose text is
    "Failed to connect to Snowflake database: " followed by the text of
    [cause], and whose context is [cause]. *)
Theorem C5_init_failure_wraps_cause (e : Env W) (cause : exn) (w : W) :
  driver_rejects out e cause w →
  ∃ x e', _init_database out e = (Raise x, e')
          ∧ exn_class_of x = ValueError
          ∧ exn_text x = "Failed to connect to Snowflake database: " +:+ exn_text cause
          ∧ contains (exn_text cause) (exn_text x)
          ∧ exn_context x = Some cause.
Proof.
  intros Hrej. destruct (init_database_rejected e cause w Hrej) as [e' H].
  eexists _, _. split; [exact H|]. simpl.
  repeat split. apply contains_suffix.
Qed.

(** Conversely, [_init_database] raises nothing else. *)
Lemma init_database_raises (e e' : Env W) (x : exn) :
  _init_database out e = (Raise x, e') →
  ∃ cause, driver_rejects out e cause (world e') ∧ x = init_failure cause.
Proof.
  intros Hx. pose proof (init_database_cases out e) as H. unfold driver_rejects.
  destruct (snowflake_connect out _ (world e)) as [[c|y|[]] w1] eqn:Hc.
  - destruct (conn_cursor out c w1) as [[cu|y|[]] w2] eqn:Hcu.
    + congruence.
    + rewrite H in Hx. injection Hx as <- <-. exists y. split; [|done].
      right. by exists c, w1.
  - rewrite H in Hx. injection Hx as <- <-. exists y. split; [|done]. by left.
Qed.

End Initialize.

(** C6 at a session that was opened and whose server became unreachable
    4000 seconds later. *)
Lemma C6_witness :
  let e := with_world (Mock.unreachable 1700004000) Mock.opened in
  ∃ x e', _init_database Mock.driver e = (Raise x, e')
          ∧ self e' = self e
          ∧ connection (self e') = connection (self e)
          ∧ cursor (self e') = cursor (self e)
          ∧ auth_time (self e') = auth_time (self e).
Proof.
  intros e.
  apply (C6_failed_connect_leaves_session Mock.driver e
           (Mock.driver_error "250001: Could not connect") (Mock.unreachable 1700004000)).
  reflexivity.
Defined.

Lemma C5_witness :
  ∃ x e', _init_database Mock.driver (Mock.start ∅ (Mock.unreachable 0)) = (Raise x, e')
          ∧ exn_class_of x = ValueError
          ∧ exn_text x = "Failed to connect to Snowflake database: "
                           +:+ exn_text (Mock.driver_error "250001: Could not connect")
          ∧ contains (exn_text (Mock.driver_error "250001: Could not connect")) (exn_text x)
          ∧ exn_context x = Some (Mock.driver_error "250001: Could not connect").
Proof.
  apply (C5_init_failure_wraps_cause Mock.driver _ _ (Mock.unreachable 0)).
  left. reflexivity.
Defined.

(** C5 as stated fails: the error raised is a [ValueError], not a
    [ConnectionError]. *)
Lemma C5_counterexample :
  ∃ x e', _init_database Mock.driver (Mock.start ∅ (Mock.unreachable 0)) = (Raise x, e')
          ∧ exn_class_of x ≠ ConnectionError.
Proof. eexists _, _. split; [reflexivity|]. simpl. discriminate. Qed.

(** ** Exceptions outside [Exception] *)

Section NeverBase.
Context {W : Type}.

Lemma never_base_ret {A} (a : A) : never_base (@ret W A a).
Proof. by intros e b e'. Qed.

Lemma never_base_raise {A} x : never_base (@raise W A x).
Proof. by intros e b e'. Qed.

Lemma never_base_get_self : never_base (@get_self W).
Proof. by intros e b e'. Qed.

Lemma never_base_update f : never_base (@update_self W f).
Proof. by intros e b e'. Qed.

Lemma never_base_emit ev : never_base (@emit W ev).
Proof. by intros e b e'. Qed.

Lemma never_base_call {A} ev (f : W → answer A * W) : never_base (call ev f).
Proof.
  intros e b e'. unfold call. by destruct (f (world e)) as [[a|x|[]] w].
Qed.

Lemma never_base_call_total {A} ev (f : W → A * W) : never_base (call_total ev f).
Proof. intros e b e'. unfold call_total. by destruct (f (world e)) as [a w]. Qed.

Lemma never_base_bind {A B} (m : M W A) (f : A → M W B) :
  never_base m → (∀ a, never_base (f a)) → never_base (bind m f).
Proof.
  intros Hm Hf e b e'. unfold bind. specialize (Hm e).
  destruct (m e) as [[a|x|b'] e1]; [apply Hf | done | intros _].
  by apply (Hm b' e1).
Qed.

Lemma never_base_try_except {A} (m : M W A) (h : exn → M W A) :
  never_base m → (∀ x, never_base (h x)) → never_base (try_except m h).
Proof.
  intros Hm Hh e b e'. unfold try_except. specialize (Hm e).
  destruct (m e) as [[a|x|b'] e1]; [done | apply Hh | intros _].
  by apply (Hm b' e1).
Qed.

End NeverBase.

Create HintDb never_base discriminated.
#[export] Hint Resolve never_base_ret never_base_raise never_base_get_self
  never_base_update never_base_emit never_base_call never_base_call_total
  : never_base.

(** Goes through binds and handlers as [step_through] does. *)
Ltac no_base :=
  repeat first
    [ solve [eauto with never_base]
    | apply never_base_bind; [| intros ?]
    | apply never_base_try_except; [| intros ?]
    | match goal with |- never_base (match ?x with _ => _ end) => destruct x end ].

Section NeverBaseSuites.
Context {W : Type} (out : Outside W).

Lemma cursor_attr_never_base attr : never_base (@cursor_attr W attr).
Proof. unfold cursor_attr. no_base. Qed.

Lemma unpack3_never_base r : never_base (@unpack3 W r).
Proof. unfold unpack3. no_base. Qed.

Lemma second_column_never_base tables : never_base (@second_column W tables).
Proof. induction tables as [|table rest IH]; simpl; no_base. Qed.

(** The driver raises instances of [Exception] only, so the statements
    of [test_connection] are never left by anything else, *)
Lemma test_queries_never_base : never_base (test_queries out).
Proof.
  pose proof cursor_attr_never_base. pose proof unpack3_never_base.
  pose proof second_column_never_base.
  unfold test_queries. no_base.
Qed.

(** nor is the [try] suite of [execute_query]. *)
Lemma execute_query_try_never_base query : never_base (execute_query_try out query).
Proof. pose proof cursor_attr_never_base. unfold execute_query_try. no_base. Qed.

End NeverBaseSuites.

(** ** Tasks and the event loop *)

Section Tasks.
Context {W : Type} (out : Outside W).

(** What a task of the running loop becomes when the loop runs it. *)
Lemma run_task_state (k : nat) (s : task_state) (e : Env W) :
  match s with
  | TaskPending => ∃ r, fst (run_task out k s e) = TaskDone r
  | TaskCancelling => fst (run_task out k s e) = TaskCancelled
  | _ => fst (run_task out k s e) = s
  end.
Proof.
  destruct s as [| |r|]; simpl; try done.
  pose proof (never_base_bind (emit (EvTaskRun k)) (fun _ => _init_database out)
                (never_base_emit _) (fun _ => init_database_never_base out) e) as Hnb.
  destruct ((emit (EvTaskRun k);;; _init_database out) e) as [[[]|x|b] e1]; simpl.
  - by eexists.
  - by eexists.
  - by destruct (Hnb b e1).
Qed.

(** One turn of loop [l], task by task: a task of another loop is what
    it was, a task of [l] is done. *)
Lemma run_pending_lookup (l : nat) (ts : list task) (k : nat) (e : Env W)
    (i : nat) (t : task) :
  ts !! i = Some t →
  ∃ s, fst (run_pending out l k ts e) !! i = Some (Task (task_loop t) s)
       ∧ (task_loop t ≠ l → s = task_state_of t)
       ∧ (task_loop t = l →
          match task_state_of t with
          | TaskPending => ∃ r, s = TaskDone r
          | TaskCancelling => s = TaskCancelled
          | s0 => s = s0
          end).
Proof.
  revert k e i. induction ts as [|t0 ts IH]; intros k e i Hi; [done|].
  simpl. destruct (Nat.eqb_spec (task_loop t0) l) as [Heq|Hne].
  - pose proof (run_task_state k (task_state_of t0) e) as Hs.
    destruct (run_task out k (task_state_of t0) e) as [s0 e1]; simpl in Hs.
    destruct i as [|i]; simpl in Hi.
    + injection Hi as <-.
      destruct (run_pending out l (S k) ts e1) as [ts' e']; simpl.
      exists s0. split; [done|]. split; [done|]. intros _.
      by destruct (task_state_of t0).
    + destruct (IH (S k) e1 i Hi) as (s & Hl & Hs').
      destruct (run_pending out l (S k) ts e1) as [ts' e']; simpl in *.
      by exists s.
  - destruct i as [|i]; simpl in Hi.
    + injection Hi as <-.
      destruct (run_pending out l (S k) ts e) as [ts' e']; simpl.
      exists (task_state_of t0). by repeat split.
    + destruct (IH (S k) e i Hi) as (s & Hl & Hs').
      destruct (run_pending out l (S k) ts e) as [ts' e']; simpl in *.
      by exists s.
Qed.

(** One turn of the event loop keeps whatever the run of a task
    keeps. *)
Lemma run_task_keeps (R : relation (Env W)) `{!PreOrder R} :
  (∀ k, steps R (emit (EvTaskRun k) ;;; _init_database out)) →
  ∀ k s e, R e (snd (run_task out k s e)).
Proof.
  intros Hrun k s e. destruct s as [| |r|]; simpl; try reflexivity.
  specialize (Hrun k e).
  by destruct ((emit (EvTaskRun k);;; _init_database out) e) as [o e1].
Qed.

Lemma run_pending_keeps (R : relation (Env W)) `{!PreOrder R} :
  (∀ k, steps R (emit (EvTaskRun k) ;;; _init_database out)) →
  ∀ l ts k e, R e (snd (run_pending out l k ts e)).
Proof.
  intros Hrun l ts. induction ts as [|t ts IH]; intros k e; simpl.
  - reflexivity.
  - assert (H1 : R e (snd (if (task_loop t =? l)%nat
                           then run_task out k (task_state_of t) e
                           else (task_state_of t, e)))).
    { destruct (task_loop t =? l)%nat; [by apply run_task_keeps | reflexivity]. }
    destruct (if task_loop t =? l then _ else _)%nat as [s e1]; simpl in H1.
    specialize (IH (S k) e1).
    destruct (run_pending out l (S k) ts e1) as [ts' e']; simpl in *.
    by etransitivity.
Qed.

(** The same for the loop's turn, when the relation does not look at the
    list of tasks. *)
Lemma run_loop_keeps_turn (R : relation (Env W)) `{!PreOrder R} :
  (∀ k, steps R (emit (EvTaskRun k) ;;; _init_database out)) →
  (∀ e ts, R e (Build_Env (self e) (world e) ts (trace e) (event_loop e))) →
  steps R (run_loop out).
Proof.
  intros Hrun Hts e. unfold run_loop.
  destruct (running_loop e) as [l|]; [|reflexivity].
  pose proof (run_pending_keeps R Hrun l (loop e) 0 e) as H.
  destruct (run_pending out l 0 (loop e) e) as [ts e']; simpl in *.
  etransitivity; [exact H | apply Hts].
Qed.

Lemma run_loop_keeps (R : relation (Env W)) `{!PreOrder R} :
  steps R (_init_database out) →
  (∀ k, steps R (emit (EvTaskRun k))) →
  (∀ e ts, R e (Build_Env (self e) (world e) ts (trace e) (event_loop e))) →
  steps R (run_loop out).
Proof.
  intros Hinit Hrun Hts. apply (run_loop_keeps_turn R); [|exact Hts].
  intros k. apply steps_bind; [typeclasses eauto | apply Hrun | by intros _].
Qed.

Lemma task_result_same_env k (e : Env W) : snd (task_result out k e) = e.
Proof. unfold task_result. by repeat case_match. Qed.

Lemma task_result_keeps (R : relation (Env W)) `{!Reflexive R} k :
  steps R (task_result out k).
Proof. intros e. rewrite task_result_same_env. reflexivity. Qed.

(** An initialization is pending exactly when the code finds a task to
    await. *)
Lemma init_pending_task (e : Env W) (k : nat) :
  init_pending e k ↔ pending_task e = Some k.
Proof.
  unfold init_pending, pending_task, task_pending. split.
  - intros (-> & t & -> & ->). done.
  - destruct (init_task (self e)) as [k'|]; [|done].
    destruct (loop e !! k') as [t|] eqn:Ht; [|done].
    destruct (task_done (task_state_of t)) eqn:Hd; [done|].
    intros [= ->]. split; [done|]. by exists t.
Qed.

Lemma nothing_pending_task (e : Env W) :
  (∀ k, ¬ init_pending e k) ↔ pending_task e = None.
Proof.
  split.
  - intros Hno. destruct (pending_task e) as [k|] eqn:Hp; [|done].
    by apply init_pending_task, Hno in Hp.
  - intros Hp k Hk%init_pending_task. congruence.
Qed.

Lemma ensure_session_await (e : Env W) (k : nat) :
  pending_task e = Some k → ensure_session out e = await_task out k e.
Proof. intros Hp. unfold ensure_session, bind at 1. by rewrite Hp. Qed.

Lemma await_task_result (k : nat) (e : Env W) :
  await_task out k e = task_result out k (after_turn out k e).
Proof.
  unfold await_task, after_turn, bind, emit, run_loop. simpl.
  destruct (running_loop _) as [l|]; [|done].
  by destruct (run_pending out l 0 _ _) as [ts e'].
Qed.

(** The awaited task after the loop's turn. *)
Lemma after_turn_lookup (k : nat) (e : Env W) (i : nat) (t : task) :
  loop e !! i = Some t →
  ∃ s, loop (after_turn out k e) !! i = Some (Task (task_loop t) s)
       ∧ (event_loop e ≠ Return (task_loop t) → s = task_state_of t)
       ∧ (event_loop e = Return (task_loop t) →
          match task_state_of t with
          | TaskPending => ∃ r, s = TaskDone r
          | TaskCancelling => s = TaskCancelled
          | s0 => s = s0
          end).
Proof.
  intros Hi. unfold after_turn, run_loop, running_loop, emit. simpl.
  destruct (event_loop e) as [l|x|[]] eqn:Hl; simpl.
  - destruct (run_pending_lookup l (loop e) 0
                (Build_Env (self e) (world e) (loop e) (trace e ++ [EvAwait k])
                           (event_loop e)) i t Hi) as (s & Hs & Hne & Heq).
    rewrite Hl in Hs.
    destruct (run_pending out l 0 (loop e) _) as [ts e']; simpl in *.
    exists s. split; [done|]. split.
    + intros Hl'. apply Hne. congruence.
    + intros [= ->]. by apply Heq.
  - exists (task_state_of t). rewrite Hi. split; [by destruct t|]. by split.
Qed.



(** [start_init_connection] calls nothing outside the object. *)
Lemma start_init_connection_same (e : Env W) :
  let e' := snd (start_init_connection e) in
  world e' = world e ∧ trace e' = trace e
  ∧ connection (self e') = connection (self e)
  ∧ cursor (self e') = cursor (self e)
  ∧ auth_time (self e') = auth_time (self e)
  ∧ insights (self e') = insights (self e)
  ∧ connection_config (self e') = connection_config (self e)
  ∧ event_loop e' = event_loop e.
Proof.
  simpl. unfold start_init_connection.
  destruct (event_loop e) as [l|x|[]] eqn:Hl; simpl; by rewrite ?Hl.
Qed.

Lemma run_op_start (e : Env W) :
  snd (run_op out OpStartInitConnection e) = snd (start_init_connection e).
Proof.
  simpl. unfold bind. by destruct (start_init_connection e) as [[k|x|b] e'].
Qed.

Lemma start_init_connection_trace (e : Env W) :
  trace (snd (run_op out OpStartInitConnection e)) = trace e.
Proof. rewrite run_op_start. apply start_init_connection_same. Qed.

End Tasks.

(** ** Test Connection *)

Section TestConnection.
Context {W : Type} (out : Outside W).

Lemma returns_ret {A} (P : A → Prop) (a : A) : P a → returns P (@ret W A a).
Proof. intros HP e a' e' [= <- _]. exact HP. Qed.

Lemma returns_bind {A B} (P : B → Prop) (m : M W A) (f : A → M W B) :
  (∀ a, returns P (f a)) → returns P (bind m f).
Proof.
  intros Hf e b e'. unfold bind. destruct (m e) as [[a|x|b'] e1]; [|done..].
  apply Hf.
Qed.

Lemma test_queries_success : returns (fun r => fst r = true) (test_queries out).
Proof.
  unfold test_queries.
  repeat first [ apply returns_bind; intros ? | by apply returns_ret ].
  match goal with a : (Value * Value * Value)%type |- _ => destruct a as [[? ?] ?] end.
  repeat first [ apply returns_bind; intros ? | by apply returns_ret ].
Qed.






End TestConnection.



(** ** The insight log *)

#[export] Hint Extern 1 (∀ s : SnowflakeDB, insights _ = insights s) =>
  intros ?; reflexivity : steps.

Section Insights.
Context {W : Type} (out : Outside W).

Lemma init_database_same_insights : steps same_insights (_init_database out).
Proof. unfold _init_database. step_through. Qed.

Lemma run_loop_same_insights : steps same_insights (run_loop out).
Proof.
  apply (run_loop_keeps out same_insights init_database_same_insights);
    by intros ? ?.
Qed.

Lemma task_result_same_insights k : steps same_insights (task_result out k).
Proof. apply task_result_keeps; typeclasses eauto. Qed.

Lemma ensure_session_same_insights : steps same_insights (ensure_session out).
Proof.
  pose proof init_database_same_insights. pose proof run_loop_same_insights.
  pose proof task_result_same_insights.
  unfold ensure_session, await_task. step_through.
Qed.

Lemma cursor_attr_same_insights attr : steps same_insights (@cursor_attr W attr).
Proof. unfold cursor_attr. step_through. Qed.

Lemma second_column_same_insights tables : steps same_insights (@second_column W tables).
Proof. induction tables as [|table rest IH]; simpl; step_through. Qed.

Lemma test_connection_same_insights : steps same_insights (test_connection out).
Proof.
  pose proof ensure_session_same_insights. pose proof cursor_attr_same_insights.
  pose proof second_column_same_insights.
  unfold test_connection, test_connection_try, test_queries, unpack3. step_through.
Qed.

Lemma execute_query_same_insights query : steps same_insights (execute_query out query).
Proof.
  pose proof ensure_session_same_insights. pose proof cursor_attr_same_insights.
  unfold execute_query, execute_query_try. step_through.
Qed.

Lemma get_memo_same_state (e : Env W) : snd (get_memo e) = e.
Proof. unfold get_memo, bind, get_self, ret. by destruct (insights (self e)). Qed.

(** C9.  The insight log is append-only.  Whatever public operation
    runs, the log before the call is a prefix of the log after it:
    [add_insight] returns normally with the given string appended at
    the end, whatever the string and the log are, and every other
    operation (as well as a turn of the event loop) leaves the log as it
    was. *)
Theorem C9_insight_log_append_only (o : op) (e : Env W) :
  insights (self e) `prefix_of` insights (self (snd (run_op out o e)))
  ∧ match o with
    | OpAddInsight insight =>
        fst (run_op out o e) = Return RNone
        ∧ insights (self (snd (run_op out o e))) = insights (self e) ++ [insight]
    | _ => insights (self (snd (run_op out o e))) = insights (self e)
    end
  ∧ insights (self (snd (run_loop out e))) = insights (self e).
Proof.
  assert (Hop : match o with
                | OpAddInsight insight =>
                    fst (run_op out o e) = Return RNone
                    ∧ insights (self (snd (run_op out o e))) = insights (self e) ++ [insight]
                | _ => insights (self (snd (run_op out o e))) = insights (self e)
                end).
  { destruct o as [|query|insight| |]; simpl.
    - pose proof (test_connection_same_insights e) as H. unfold bind.
      by destruct (test_connection out e) as [[r|x|b] e'].
    - pose proof (execute_query_same_insights query e) as H. unfold bind.
      by destruct (execute_query out query e) as [[r|x|b] e'].
    - done.
    - pose proof (get_memo_same_state e) as H. unfold bind.
      destruct (get_memo e) as [[r|x|b] e']; simpl in *; by subst.
    - unfold bind, start_init_connection.
      by destruct (event_loop e) as [l|x|[]]. }
  split; [|split; [exact Hop|apply run_loop_same_insights]].
  destruct o; try (rewrite Hop; done).
  destruct Hop as [_ ->]. by apply prefix_app_r.
Qed.

End Insights.

(** ** The memo *)

Lemma read_str_nat (n : nat) : read_nat (str_nat n) = Some n.
Proof. unfold read_nat, str_nat. by rewrite NilEmpty.usu, Unsigned.of_to. Qed.

Lemma concat_listing (l : list string) :
  String.concat nl (map (fun insight => "- " +:+ insight) l) = insight_listing l.
Proof.
  induction l as [|i [|j rest] IH]; [done..|].
  change (("- " +:+ i) +:+ nl
            +:+ String.concat nl (map (fun insight => "- " +:+ insight) (j :: rest))
          = "- " +:+ i +:+ nl +:+ insight_listing (j :: rest)).
  by rewrite IH, append_assoc.
Qed.

Section Memo.
Context {W : Type}.

(** C7.  [get_memo] changes nothing and returns: the fixed placeholder
    on the empty log; the header and the one insight, with nothing after
    it, on a log of one; the header, every insight in log order and then
    the summary sentence on a log of two or more, where the number the
    sentence prints is the length of the log. *)
Theorem C7_render_memo (e : Env W) :
  ∃ memo,
    get_memo e = (Return memo, e)
    ∧ match insights (self e) with
      | [] => memo = "No data insights have been discovered yet."
      | [insight] => memo = memo_header +:+ "- " +:+ insight
      | l =>
          memo = memo_header +:+ insight_listing l +:+ memo_summary (length l)
          ∧ memo_summary (length l)
            = nl +:+ nl +:+ "Summary:" +:+ nl +:+ "Analysis has revealed "
                +:+ str_nat (length l)
                +:+ " key data insights that suggest opportunities for strategic optimization and growth."
          ∧ read_nat (str_nat (length l)) = Some (length l)
      end.
Proof.
  unfold get_memo, bind, get_self, ret.
  destruct (insights (self e)) as [|i [|j rest]] eqn:Hl.
  - by eexists.
  - by eexists.
  - eexists. split; [reflexivity|]. split; [|split; [done|apply read_str_nat]].
    rewrite concat_listing. cbn [length Nat.ltb Nat.leb].
    by rewrite append_assoc.
Qed.

End Memo.

Example memo_of_none :
  fst (get_memo (Mock.start ∅ (Mock.healthy 0)))
  = Return "No data insights have been discovered yet."%string.
Proof. reflexivity. Qed.

Example memo_of_three :
  fst ((add_insight "Churn is seasonal" ;;; add_insight "EMEA leads" ;;;
        add_insight "EMEA leads" ;;; get_memo) (Mock.start ∅ (Mock.healthy 0)))
  = Return (memo_header +:+ "- Churn is seasonal" +:+ nl +:+ "- EMEA leads" +:+ nl
              +:+ "- EMEA leads" +:+ nl +:+ nl +:+ "Summary:" +:+ nl
              +:+ "Analysis has revealed 3 key data insights that suggest opportunities for strategic optimization and growth.").
Proof. reflexivity. Qed.

(** ** Dictionaries *)

Section Dict.
Implicit Types (k c : string) (v : Value) (d : pydict) (ps : list (string * Value)).

Lemma dict_get_setitem k k' v d :
  dict_get k (dict_setitem k' v d) = if String.eqb k k' then Some v else dict_get k d.
Proof.
  induction d as [|[k0 v0] d IH]; simpl.
  - done.
  - destruct (String.eqb_spec k' k0) as [->|Hne]; simpl.
    + by destruct (String.eqb k k0).
    + destruct (String.eqb_spec k k0) as [->|Hne'].
      * destruct (String.eqb_spec k0 k'); congruence.
      * exact IH.
Qed.

Lemma dict_keys_setitem k v d :
  dict_keys (dict_setitem k v d)
  = if decide (k ∈ dict_keys d) then dict_keys d else dict_keys d ++ [k].
Proof.
  unfold dict_keys. induction d as [|[k0 v0] d IH]; simpl.
  - done.
  - destruct (String.eqb_spec k k0) as [->|Hne]; simpl.
    + rewrite decide_True; [done | left].
    + rewrite IH. destruct (decide (k ∈ map fst d)) as [Hin|Hnin].
      * rewrite decide_True; [done | by right].
      * rewrite decide_False; [done|]. by intros [->|?]%elem_of_cons.
Qed.

Lemma dict_fold_get k ps d :
  dict_get k (fold_left (fun d kv => dict_setitem (fst kv) (snd kv) d) ps d)
  = match assoc_last k ps with
    | Some v => Some v
    | None => dict_get k d
    end.
Proof.
  revert d. induction ps as [|[k0 v0] ps IH]; intros d; simpl; [done|].
  rewrite IH. destruct (assoc_last k ps); [done|].
  rewrite dict_get_setitem. by destruct (String.eqb k k0).
Qed.

Lemma dict_fold_keys_NoDup ps d :
  NoDup (dict_keys d) →
  NoDup (dict_keys (fold_left (fun d kv => dict_setitem (fst kv) (snd kv) d) ps d)).
Proof.
  revert d. induction ps as [|[k0 v0] ps IH]; intros d Hd; simpl; [done|].
  apply IH. rewrite dict_keys_setitem. case_decide; [done|].
  apply NoDup_app. split; [done|]. split; [|apply NoDup_singleton].
  intros x Hx ->%list_elem_of_singleton. done.
Qed.

Lemma dict_fold_keys_elem k ps d :
  k ∈ dict_keys (fold_left (fun d kv => dict_setitem (fst kv) (snd kv) d) ps d)
  ↔ k ∈ dict_keys d ∨ k ∈ map fst ps.
Proof.
  revert d. induction ps as [|[k0 v0] ps IH]; intros d; simpl.
  - rewrite elem_of_nil. tauto.
  - rewrite IH, dict_keys_setitem, elem_of_cons.
    case_decide as Hk0; [|rewrite elem_of_app, list_elem_of_singleton];
      intuition (subst; auto).
Qed.

Lemma dict_fold_fresh ps d :
  NoDup (dict_keys d ++ map fst ps) →
  fold_left (fun d kv => dict_setitem (fst kv) (snd kv) d) ps d = d ++ ps.
Proof.
  revert d. induction ps as [|[k0 v0] ps IH]; intros d Hd; simpl.
  - by rewrite app_nil_r.
  - assert (Hset : dict_setitem k0 v0 d = d ++ [(k0, v0)]).
    { clear IH. assert (Hk : k0 ∉ dict_keys d).
      { apply NoDup_app in Hd as (_ & Hd & _). intros Hin. apply (Hd _ Hin). left. }
      clear Hd. induction d as [|[k1 v1] d IHd]; simpl; [done|].
      destruct (String.eqb_spec k0 k1) as [->|Hne].
      - exfalso. apply Hk. left.
      - rewrite IHd; [done|]. intros Hin. apply Hk. by right. }
    rewrite Hset, IH.
    + by rewrite <- app_assoc.
    + unfold dict_keys in *. rewrite map_app. simpl. by rewrite <- app_assoc.
Qed.

(** Distinct keys: the dictionary is the list of pairs itself. *)
Lemma dict_NoDup ps : NoDup (map fst ps) → dict ps = ps.
Proof. intros H. unfold dict. by rewrite dict_fold_fresh. Qed.

Lemma dict_keys_NoDup ps : NoDup (dict_keys (dict ps)).
Proof. apply dict_fold_keys_NoDup. constructor. Qed.

Lemma dict_keys_elem k ps : k ∈ dict_keys (dict ps) ↔ k ∈ map fst ps.
Proof.
  unfold dict. rewrite dict_fold_keys_elem. simpl. rewrite elem_of_nil. tauto.
Qed.

Lemma dict_get_last k ps : dict_get k (dict ps) = assoc_last k ps.
Proof. unfold dict. rewrite dict_fold_get. by destruct (assoc_last k ps). Qed.

Lemma assoc_last_absent k (columns : list string) (r : row) :
  k ∉ columns → assoc_last k (zip columns r) = None.
Proof.
  revert r. induction columns as [|c0 cs IH]; intros [|v0 rs] Hk; simpl; try done.
  rewrite IH by (intros Hin; apply Hk; by right).
  destruct (String.eqb_spec k c0) as [->|]; [|done]. exfalso. apply Hk. left.
Qed.

(** In [zip columns r], the last pair of a name comes from the last column
    of that name. *)
Lemma assoc_last_zip k (columns : list string) (r : list Value) (j : nat) :
  length r = length columns →
  columns !! j = Some k →
  (∀ j', (j < j')%nat → columns !! j' ≠ Some k) →
  assoc_last k (zip columns r) = r !! j.
Proof.
  revert r j. induction columns as [|c0 cs IH]; intros [|v0 rs] j Hlen Hj Hlast;
    simpl in *; try done.
  destruct j as [|j]; simpl in *.
  - injection Hj as ->. rewrite assoc_last_absent.
    + by rewrite String.eqb_refl.
    + intros (j' & Hj')%list_elem_of_lookup. apply (Hlast (S j')); [lia | exact Hj'].
  - rewrite (IH rs j); [| lia | done |].
    + assert (is_Some (rs !! j)) as [v Hv].
      { apply lookup_lt_is_Some. apply lookup_lt_Some in Hj. lia. }
      by rewrite Hv.
    + intros j' Hlt. apply (Hlast (S j')). lia.
Qed.

Lemma map_fst_zip (columns : list string) (r : row) :
  length r = length columns → map fst (zip columns r) = columns.
Proof.
  revert r. induction columns as [|c0 cs IH]; intros [|v0 rs] Hlen; simpl in *;
    try done.
  rewrite IH; [done | lia].
Qed.

(** More columns than keys when a name repeats. *)
Lemma dict_shorter (columns : list string) (r : row) (i j : nat) c :
  length r = length columns →
  (i < j)%nat → columns !! i = Some c → columns !! j = Some c →
  (length (dict (zip columns r)) < length columns)%nat.
Proof.
  intros Hlen Hij Hi Hj.
  assert (Hsub : dict_keys (dict (zip columns r)) ⊆+ columns).
  { apply NoDup_submseteq; [apply dict_keys_NoDup|].
    intros x Hx. apply (proj1 (dict_keys_elem x (zip columns r))) in Hx.
    by rewrite map_fst_zip in Hx. }
  assert (length (dict_keys (dict (zip columns r))) ≠ length columns) as Hne.
  { intros Heq. apply submseteq_length_Permutation in Hsub; [|lia].
    assert (NoDup columns) as Hnd.
    { rewrite <- Hsub. apply dict_keys_NoDup. }
    rewrite NoDup_alt in Hnd. specialize (Hnd i j c Hi Hj). lia. }
  apply submseteq_length in Hsub. unfold dict_keys in *.
  rewrite length_map in *. lia.
Qed.

End Dict.

(** ** The text of a UUID *)

Section Uuid.
Local Open Scope N_scope.

Lemma hex_digits_length (k : nat) (n : N) : length (hex_digits k n) = k.
Proof.
  revert n. induction k as [|k IH]; intros n; simpl; [done|].
  rewrite length_app, IH. simpl. lia.
Qed.

Lemma hex_value_digit (a : N) : a < 16 → hex_value (hex_digit a) = a.
Proof.
  intros Ha. rewrite <- (N2Nat.id a).
  assert (N.to_nat a < 16)%nat as Hn by lia.
  generalize dependent (N.to_nat a). intros n Hn.
  do 16 (destruct n as [|n]; [reflexivity|]). lia.
Qed.

Lemma hex_digits_inj (k : nat) (n n' : N) :
  hex_digits k n = hex_digits k n' → n mod 16 ^ N.of_nat k = n' mod 16 ^ N.of_nat k.
Proof.
  revert n n'. induction k as [|k IH]; intros n n' Heq.
  - simpl. by rewrite !N.mod_1_r.
  - simpl in Heq. apply app_inj_tail in Heq as [Hhigh Hlow].
    apply IH in Hhigh.
    assert (n mod 16 = n' mod 16) as Hmod.
    { rewrite <- (hex_value_digit (n mod 16)), <- (hex_value_digit (n' mod 16)).
      - by rewrite Hlow.
      - by apply N.mod_upper_bound.
      - by apply N.mod_upper_bound. }
    rewrite Nat2N.inj_succ, N.pow_succ_r'.
    rewrite !N.Div0.mod_mul_r. by rewrite Hhigh, Hmod.
Qed.

Lemma string_of_list_ascii_length (l : list ascii) :
  String.length (string_of_list_ascii l) = length l.
Proof. induction l as [|a l IH]; simpl; [done | by rewrite IH]. Qed.

Lemma string_of_list_ascii_inj (l l' : list ascii) :
  string_of_list_ascii l = string_of_list_ascii l' → l = l'.
Proof.
  intros H. rewrite <- (list_ascii_of_string_of_list_ascii l),
    <- (list_ascii_of_string_of_list_ascii l'). by rewrite H.
Qed.

(** A list of 32 elements, spelled out. *)
Ltac spell_out h H :=
  do 32 (destruct h as [|? h]; [discriminate H|]);
  destruct h; [clear H | discriminate H].

Lemma uuid_groups_length (h : list ascii) :
  length h = 32%nat → length (uuid_groups h) = 36%nat.
Proof. intros H. spell_out h H. reflexivity. Qed.

Lemma uuid_groups_inj (h h' : list ascii) :
  length h = 32%nat → length h' = 32%nat → uuid_groups h = uuid_groups h' → h = h'.
Proof.
  intros H H' Heq. spell_out h H. spell_out h' H'.
  unfold uuid_groups in Heq. simpl in Heq. congruence.
Qed.

(** The identifier has the 36 characters of a UUID: it is not empty. *)
Lemma str_uuid_length (u : N) : String.length (str_uuid u) = 36%nat.
Proof.
  unfold str_uuid. rewrite string_of_list_ascii_length.
  apply uuid_groups_length, hex_digits_length.
Qed.

(** Two UUIDs with the same text are the same 128-bit number. *)
Lemma str_uuid_inj (u u' : N) :
  str_uuid u = str_uuid u' → u mod 2 ^ 128 = u' mod 2 ^ 128.
Proof.
  intros H%string_of_list_ascii_inj.
  apply uuid_groups_inj in H; [|apply hex_digits_length..].
  by apply hex_digits_inj in H.
Qed.

End Uuid.

Example str_uuid_example :
  str_uuid 0x123e4567e89b42d3a456426614174000 = "123e4567-e89b-42d3-a456-426614174000"%string.
Proof. reflexivity. Qed.

(** ** Execute Query *)

Section ExecuteQuery.
Context {W : Type} (out : Outside W).

(** What a [call_total] returns is what the outside function answered,
    and the world it leaves is the one the function left. *)
Lemma call_total_answer {A} ev (f : W → A * W) (e e' : Env W) (a : A) :
  call_total ev f e = (Return a, e') → f (world e) = (a, world e').
Proof.
  unfold call_total. destruct (f (world e)) as [a' w']. by intros [= -> <-].
Qed.

(** The identifier a successful call returns is the text of the UUID it
    drew last. *)
Lemma execute_query_id (query : string) (e e' : Env W) result_rows data_id :
  execute_query out query e = (Return (result_rows, data_id), e') →
  ∃ u w, uuid_uuid4 out w = (u, world e') ∧ data_id = str_uuid u.
Proof.
  unfold execute_query, bind at 1 2.
  destruct (ensure_session out e) as [[[]|x|b] e1]; [|done..].
  destruct (emit _ e1) as [[[]|x|b] e2]; [|done..].
  unfold try_except.
  destruct (execute_query_try out query e2) as [[r|x|b] e3] eqn:Htry;
    [|unfold log_and_reraise, bind, emit, raise; simpl; done|done].
  intros [= -> ->]. revert Htry. unfold execute_query_try.
  repeat (unfold bind at 1;
          match goal with
          | |- (match ?m ?e with _ => _ end) = _ → _ =>
              let H := fresh "H" in
              destruct (m e) as [[?|?|?] ?] eqn:H; [|discriminate..]
          end).
  intros [= <- <- <-].
  match goal with H : call_total EvUuid4 _ _ = _ |- _ =>
    apply call_total_answer in H; eauto end.
Qed.

Lemma execute_query_after_check (query : string) (e e1 : Env W) :
  ensure_session out e = (Return (), e1) →
  execute_query out query e
  = try_except (execute_query_try out query) (log_and_reraise query)
      (after_debug_log query e1).
Proof. intros Hg. unfold execute_query, bind at 1 2. by rewrite Hg. Qed.

Ltac run_suite :=
  unfold execute_query_try, cursor_attr, bind, get_self, call, call_total, ret, raise;
  simpl.

Lemma execute_query_try_answers (query : string) (e1 : Env W) descs rows u w :
  driver_answers out query e1 descs rows u w →
  execute_query_try out query e1
  = (Return (map (fun r => dict (zip (map md_name descs) r)) rows, str_uuid u),
     Build_Env (self e1) w (loop e1)
               (trace e1 ++ [EvExecute query; EvDescription; EvFetchall; EvUuid4])
               (event_loop e1)).
Proof.
  intros (cu & w1 & w2 & w3 & Hcu & Hex & Hde & Hfe & Hu).
  run_suite. rewrite Hcu; simpl. rewrite Hex; simpl. rewrite Hcu; simpl.
  rewrite Hde; simpl. rewrite Hcu; simpl. rewrite Hfe; simpl. rewrite Hu; simpl.
  by rewrite <- !app_assoc.
Qed.

Lemma execute_query_try_fails (query : string) (e1 : Env W) x w d :
  driver_fails out query e1 x w d →
  execute_query_try out query e1
  = (Raise x, Build_Env (self e1) w (loop e1) (trace e1 ++ d) (event_loop e1)).
Proof.
  intros (cu & Hcu & [(Hex & ->) | [(w1 & Hex & Hde & ->)
                                     | (w1 & descs & w2 & Hex & Hde & Hfe & ->)]]).
  - run_suite. rewrite Hcu; simpl. by rewrite Hex.
  - run_suite. rewrite Hcu; simpl. rewrite Hex; simpl. rewrite Hcu; simpl.
    rewrite Hde; simpl. by rewrite <- !app_assoc.
  - run_suite. rewrite Hcu; simpl. rewrite Hex; simpl. rewrite Hcu; simpl.
    rewrite Hde; simpl. rewrite Hcu; simpl. rewrite Hfe; simpl.
    by rewrite <- !app_assoc.
Qed.

(** C4.  When the driver raises [x] during SQL execution or result
    retrieval, [execute_query] raises that same [x].  After the session
    check it made one [execute] call and the driver calls up to the
    failing one, then logged the error: one call of [logger.error],
    whose message is "Database error executing ", the query between
    double quotes, ": " and the text of [x].  It did nothing else: no
    second [execute], no initialization, and the session object is the
    one the session check left. *)
Theorem C4_driver_error_propagates (query : string) (e e1 : Env W) x w d :
  ensure_session out e = (Return (), e1) →
  driver_fails out query (after_debug_log query e1) x w d →
  ∃ e' message,
    execute_query out query e = (Raise x, e')
    ∧ message = "Database error executing "
                  +:+ String (ascii_of_nat 34)
                        (query +:+ String (ascii_of_nat 34) (": " +:+ exn_text x))
    ∧ contains query message
    ∧ contains (exn_text x) message
    ∧ trace e' = trace e1 ++ [EvLogDebug ("Executing query: " +:+ query)] ++ d
                   ++ [EvLogError message]
    ∧ log_records (drop (length (trace e1)) (trace e')) = [message]
    ∧ count_events is_execute d = 1%nat
    ∧ count_events is_init_enter d = 0%nat
    ∧ Forall quiet d
    ∧ self e' = self e1
    ∧ loop e' = loop e1
    ∧ world e' = w.
Proof.
  intros Hg Hf. rewrite (execute_query_after_check query e e1 Hg).
  unfold try_except. rewrite (execute_query_try_fails _ _ _ _ _ Hf).
  eexists _, _. split; [reflexivity|]. split; [reflexivity|]. simpl.
  split.
  { by exists ("Database error executing " +:+ dquote)%string,
      (dquote +:+ ": " +:+ exn_text x)%string. }
  split.
  { exists ("Database error executing " +:+ dquote +:+ query +:+ dquote +:+ ": ")%string,
      ""%string.
    rewrite append_nil_r.
    change ("Database error executing " +:+ dquote +:+ query +:+ dquote +:+ ": ")%string
      with ("Database error executing " +:+ dquote
              +:+ (query +:+ String (ascii_of_nat 34) ": "))%string.
    by rewrite !append_assoc. }
  split; [by rewrite <- !app_assoc|].
  rewrite <- !app_assoc, drop_app_length.
  destruct Hf as (cu & _ & [(_ & ->) | [(w1 & _ & _ & ->)
                                         | (w1 & descs & w2 & _ & _ & _ & ->)]]);
    repeat split; repeat constructor.
Qed.

Lemma lookup_map {A B} (f : A → B) (l : list A) (i : nat) :
  map f l !! i = f <$> l !! i.
Proof. revert i. induction l as [|a l IH]; intros [|i]; simpl; auto. Qed.

Lemma execute_query_answers (query : string) (e e1 : Env W) descs rows u w :
  ensure_session out e = (Return (), e1) →
  driver_answers out query (after_debug_log query e1) descs rows u w →
  ∃ e', execute_query out query e
        = (Return (map (fun r => dict (zip (map md_name descs) r)) rows, str_uuid u), e').
Proof.
  intros Hg Ha. rewrite (execute_query_after_check query e e1 Hg).
  unfold try_except. rewrite (execute_query_try_answers _ _ _ _ _ _ Ha). by eexists.
Qed.

(** C3 (amended).  For a driver result with pairwise distinct column
    names c1..cn and rows r1..rm of n values each, [execute_query]
    returns m mappings, the i-th being the pairs (cj, j-th value of ri)
    in column order, together with the text of the UUID drawn by
    [uuid4] in this call, which has 36 characters.  Any other successful
    call returns the text of the UUID it drew, and the two identifiers
    are equal only if the two UUIDs are the same 128-bit number. *)
Theorem C3_rows_as_mappings (query : string) (e e1 : Env W) descs rows u w :
  ensure_session out e = (Return (), e1) →
  driver_answers out query (after_debug_log query e1) descs rows u w →
  NoDup (map md_name descs) →
  Forall (fun r : row => length r = length descs) rows →
  ∃ result_rows data_id e',
    execute_query out query e = (Return (result_rows, data_id), e')
    ∧ length result_rows = length rows
    ∧ (∀ i r, rows !! i = Some r →
         ∃ d, result_rows !! i = Some d
              ∧ d = zip (map md_name descs) r
              ∧ dict_keys d = map md_name descs
              ∧ bound_by_position (map md_name descs) r d)
    ∧ data_id = str_uuid u
    ∧ String.length data_id = 36%nat
    ∧ data_id ≠ ""%string
    ∧ (∀ query' e0 result_rows' data_id' e0',
         execute_query out query' e0 = (Return (result_rows', data_id'), e0') →
         ∃ u' w', uuid_uuid4 out w' = (u', world e0')
                  ∧ data_id' = str_uuid u'
                  ∧ (data_id' = data_id → (u' mod 2 ^ 128 = u mod 2 ^ 128)%N)).
Proof.
  intros Hg Ha Hnd Hlen.
  destruct (execute_query_answers query e e1 descs rows u w Hg Ha) as [e' He'].
  eexists _, _, e'. split; [exact He'|].
  split; [by rewrite length_map|].
  split; [|split; [done|]; split; [apply str_uuid_length|]; split].
  - intros i r Hr. eexists. split; [by rewrite lookup_map, Hr|].
    assert (length r = length (map md_name descs)) as Hl.
    { rewrite length_map. by eapply Forall_lookup_1 in Hlen. }
    assert (dict (zip (map md_name descs) r) = zip (map md_name descs) r) as ->.
    { apply dict_NoDup. by rewrite map_fst_zip. }
    split; [done|]. split; [by apply map_fst_zip|].
    intros j c Hj. rewrite <- (dict_NoDup (zip _ r)) by by rewrite map_fst_zip.
    rewrite dict_get_last. apply assoc_last_zip; [done..|].
    intros j' Hlt Hj'. rewrite NoDup_alt in Hnd. specialize (Hnd j j' c Hj Hj'). lia.
  - intros Hid. pose proof (str_uuid_length u) as Hl. by rewrite Hid in Hl.
  - intros query' e0 rr id' e0' Hcall.
    destruct (execute_query_id query' e0 e0' rr id' Hcall) as (u' & w' & Hu' & ->).
    exists u', w'. split; [done|]. split; [done|]. apply str_uuid_inj.
Qed.

(** C10.  When a column name [c] occurs more than once in the
    descriptor (at [i] and again, for the last time, at [j]) and every
    row has one value per column, each mapping [execute_query] returns
    contains [c] exactly once, bound to the value of column [j], and has
    fewer entries than there are columns. *)
Theorem C10_duplicate_column_last_wins (query : string) (e e1 : Env W) descs rows u w
    (c : string) (i j : nat) :
  ensure_session out e = (Return (), e1) →
  driver_answers out query (after_debug_log query e1) descs rows u w →
  Forall (fun r : row => length r = length descs) rows →
  (i < j)%nat →
  map md_name descs !! i = Some c →
  map md_name descs !! j = Some c →
  (∀ j', (j < j')%nat → map md_name descs !! j' ≠ Some c) →
  ∃ result_rows data_id e',
    execute_query out query e = (Return (result_rows, data_id), e')
    ∧ length result_rows = length rows
    ∧ (∀ n r, rows !! n = Some r →
         ∃ d, result_rows !! n = Some d
              ∧ count_occ String.string_dec (dict_keys d) c = 1%nat
              ∧ dict_get c d = r !! j
              ∧ (length d < length descs)%nat).
Proof.
  intros Hg Ha Hlen Hij Hi Hj Hlast.
  destruct (execute_query_answers query e e1 descs rows u w Hg Ha) as [e' He'].
  eexists _, _, e'. split; [exact He'|].
  split; [by rewrite length_map|].
  intros n r Hr. eexists. split; [by rewrite lookup_map, Hr|].
  assert (length r = length (map md_name descs)) as Hl.
  { rewrite length_map. by eapply Forall_lookup_1 in Hlen. }
  split; [|split].
  - apply NoDup_count_occ'; [apply NoDup_ListNoDup, dict_keys_NoDup|].
    apply list_elem_of_In, dict_keys_elem. rewrite map_fst_zip by done.
    by eapply list_elem_of_lookup_2.
  - rewrite dict_get_last. by apply assoc_last_zip.
  - rewrite <- (length_map md_name descs). by eapply dict_shorter.
Qed.

End ExecuteQuery.

(** C3 on the example of the specification: rows (1, "a") and (2, "b")
    under the columns "id" and "name". *)
Lemma C3_witness :
  let out := Mock.driver in
  let e := Mock.start ∅ (Mock.healthy 1700000000) in
  let descs := [ {| md_name := "id"; md_type_code := 0 |};
                 {| md_name := "name"; md_type_code := 2 |} ] in
  let rows := [[VInt 1; VStr "a"]; [VInt 2; VStr "b"]] in
  let u := 0x123e4567e89b42d3a456426614174000%N in
  ∃ result_rows data_id e',
    execute_query out "SELECT id, name FROM t" e = (Return (result_rows, data_id), e')
    ∧ length result_rows = length rows
    ∧ (∀ i r, rows !! i = Some r →
         ∃ d, result_rows !! i = Some d
              ∧ d = zip (map md_name descs) r
              ∧ dict_keys d = map md_name descs
              ∧ bound_by_position (map md_name descs) r d)
    ∧ data_id = str_uuid u
    ∧ String.length data_id = 36%nat
    ∧ data_id ≠ ""%string
    ∧ (∀ query' e0 result_rows' data_id' e0',
         execute_query out query' e0 = (Return (result_rows', data_id'), e0') →
         ∃ u' w', uuid_uuid4 out w' = (u', world e0')
                  ∧ data_id' = str_uuid u'
                  ∧ (data_id' = data_id → (u' mod 2 ^ 128 = u mod 2 ^ 128)%N)).
Proof.
  intros out e descs rows u.
  assert (Hg : ensure_session out e = (Return (), snd (ensure_session out e)))
    by reflexivity.
  assert (Ha : driver_answers out "SELECT id, name FROM t"
                 (after_debug_log "SELECT id, name FROM t" (snd (ensure_session out e)))
                 descs rows u
                 (snd (uuid_uuid4 out (world (snd (ensure_session out e)))))).
  { exists 1%nat. eexists _, _, _. repeat split; reflexivity. }
  assert (Hnd : NoDup (map md_name descs)).
  { apply NoDup_cons. split; [by intros ?%list_elem_of_singleton|].
    apply NoDup_singleton. }
  assert (Hlen : Forall (fun r : row => length r = length descs) rows)
    by repeat constructor.
  exact (C3_rows_as_mappings out "SELECT id, name FROM t" e _ descs rows u _
           Hg Ha Hnd Hlen).
Defined.

Example execute_query_example :
  fst (execute_query Mock.driver "SELECT id, name FROM t"
         (Mock.start ∅ (Mock.healthy 1700000000)))
  = Return ([[("id", VInt 1); ("name", VStr "a")]; [("id", VInt 2); ("name", VStr "b")]],
            "123e4567-e89b-42d3-a456-426614174000"%string).
Proof. reflexivity. Qed.

(** C3 as stated fails on a descriptor with a repeated name: for the
    columns "a", "a" and the row (1, 2) the mapping sends the first
    column's name to 2, not to the first value.  And the identifier is
    only as unique as [uuid4]: when it draws the same UUID in two
    successive calls, both calls return the same identifier. *)
Lemma C3_counterexample :
  (∃ d data_id,
      fst (execute_query Mock.driver "SELECT 1 AS a, 2 AS a"
             (Mock.start ∅ (Mock.duplicated 1700000000))) = Return ([d], data_id)
      ∧ ¬ bound_by_position ["a"; "a"]%string [VInt 1; VInt 2] d)
  ∧ (let first := execute_query Mock.driver "SELECT id, name FROM t"
                    (with_world (Mock.healthy 1700000100) Mock.opened) in
     let second := execute_query Mock.driver "SELECT id, name FROM t"
                     (with_world (Mock.healthy 1700000200) (snd first)) in
     ∃ rows1 rows2 data_id,
       fst first = Return (rows1, data_id) ∧ fst second = Return (rows2, data_id)).
Proof.
  split.
  - exists [("a"%string, VInt 2)], "123e4567-e89b-42d3-a456-426614174000"%string.
    split; [vm_compute; reflexivity|].
    intros H. specialize (H 0%nat "a"%string eq_refl). discriminate H.
  - eexists _, _, "123e4567-e89b-42d3-a456-426614174000"%string.
    split; vm_compute; reflexivity.
Qed.

Lemma C10_witness :
  let out := Mock.driver in
  let e := Mock.start ∅ (Mock.duplicated 1700000000) in
  let descs := [ {| md_name := "a"; md_type_code := 0 |};
                 {| md_name := "a"; md_type_code := 0 |} ] in
  let rows := [[VInt 1; VInt 2]] in
  ∃ result_rows data_id e',
    execute_query out "SELECT 1 AS a, 2 AS a" e = (Return (result_rows, data_id), e')
    ∧ length result_rows = length rows
    ∧ (∀ n r, rows !! n = Some r →
         ∃ d, result_rows !! n = Some d
              ∧ count_occ String.string_dec (dict_keys d) "a" = 1%nat
              ∧ dict_get "a" d = r !! 1%nat
              ∧ (length d < length descs)%nat).
Proof.
  intros out e descs rows.
  assert (Hg : ensure_session out e = (Return (), snd (ensure_session out e)))
    by reflexivity.
  assert (Ha : driver_answers out "SELECT 1 AS a, 2 AS a"
                 (after_debug_log "SELECT 1 AS a, 2 AS a" (snd (ensure_session out e)))
                 descs rows 0x123e4567e89b42d3a456426614174000%N
                 (snd (uuid_uuid4 out (world (snd (ensure_session out e)))))).
  { exists 1%nat. eexists _, _, _. repeat split; reflexivity. }
  assert (Hlen : Forall (fun r : row => length r = length descs) rows)
    by repeat constructor.
  assert (Hlast : ∀ j', (1 < j')%nat → map md_name descs !! j' ≠ Some "a"%string).
  { intros [|[|[|j']]] Hlt; try lia; discriminate. }
  exact (C10_duplicate_column_last_wins out "SELECT 1 AS a, 2 AS a" e _ descs rows _ _
           "a" 0 1 Hg Ha Hlen (Nat.lt_0_1) eq_refl eq_refl Hlast).
Defined.

Example duplicate_columns_example :
  fst (execute_query Mock.driver "SELECT 1 AS a, 2 AS a"
         (Mock.start ∅ (Mock.duplicated 1700000000)))
  = Return ([[("a", VInt 2)]], "123e4567-e89b-42d3-a456-426614174000"%string).
Proof. reflexivity. Qed.

(** C4 on a statement the server rejects. *)
Lemma C4_witness :
  let out := Mock.driver in
  let query := "SELEC 1"%string in
  let x := Mock.driver_error "001003 (42000): SQL compilation error" in
  let e := Mock.start ∅ (Mock.failing_query 1700000000) in
  let e1 := snd (ensure_session out e) in
  let d := [EvExecute query] in
  ∃ e' message,
    execute_query out query e = (Raise x, e')
    ∧ message = "Database error executing "
                  +:+ String (ascii_of_nat 34)
                        ("SELEC 1"
                           +:+ String (ascii_of_nat 34)
                                 ": 001003 (42000): SQL compilation error")
    ∧ contains query message
    ∧ contains (exn_text x) message
    ∧ trace e' = trace e1 ++ [EvLogDebug ("Executing query: " +:+ query)] ++ d
                   ++ [EvLogError message]
    ∧ log_records (drop (length (trace e1)) (trace e')) = [message]
    ∧ count_events is_execute d = 1%nat
    ∧ count_events is_init_enter d = 0%nat
    ∧ Forall quiet d
    ∧ self e' = self e1
    ∧ loop e' = loop e1
    ∧ world e' = world e1.
Proof.
  intros out query x e e1 d.
  assert (Hg : ensure_session out e = (Return (), e1)) by reflexivity.
  assert (Hf : driver_fails out query (after_debug_log query e1) x (world e1) d).
  { exists 1%nat. split; [reflexivity|]. left. split; reflexivity. }
  exact (C4_driver_error_propagates out query e e1 x (world e1) d Hg Hf).
Defined.

(** ** The session check *)

Lemma count_events_app (p : event → bool) (d1 d2 : list event) :
  count_events p (d1 ++ d2) = (count_events p d1 + count_events p d2)%nat.
Proof. induction d1 as [|ev d1 IH]; simpl; [done | rewrite IH; lia]. Qed.

Lemma count_events_quiet (p : event → bool) (d : list event) :
  (∀ ev, p ev = true → is_lifecycle ev = true) →
  Forall quiet d → count_events p d = 0%nat.
Proof.
  intros Hp. induction 1 as [|ev d Hq _ IH]; simpl; [done|].
  rewrite IH. destruct (p ev) eqn:Hev; [|done].
  apply Hp in Hev. unfold quiet in Hq. congruence.
Qed.

Lemma init_enter_lifecycle ev : is_init_enter ev = true → is_lifecycle ev = true.
Proof. by destruct ev. Qed.
Lemma task_run_lifecycle ev : is_task_run ev = true → is_lifecycle ev = true.
Proof. by destruct ev. Qed.
Lemma await_lifecycle ev : is_await ev = true → is_lifecycle ev = true.
Proof. by destruct ev. Qed.

Section SessionCheck.
Context {W : Type} (out : Outside W).

Lemma new_events_grown {A} (m : M W A) (e : Env W) (d : list event) :
  trace (snd (m e)) = trace e ++ d → new_events m e = d.
Proof. intros H. unfold new_events. rewrite H. apply drop_app_length. Qed.

Lemma report_failure_quietly x : steps quietly (@report_failure W x).
Proof. unfold report_failure. step_through. Qed.

(** After the session check, both operations are quiet. *)
Lemma execute_query_after_check_quietly (query : string) (e : Env W) :
  quietly (snd (ensure_session out e)) (snd (execute_query out query e)).
Proof.
  unfold execute_query, bind at 1.
  destruct (ensure_session out e) as [[[]|x|b] e1]; simpl; [|reflexivity..].
  revert e1.
  match goal with |- ∀ e1, quietly e1 (snd (?m e1)) => change (steps quietly m) end.
  pose proof (execute_query_try_quietly out query).
  unfold log_and_reraise. step_through.
Qed.

Lemma test_connection_after_check_quietly (e : Env W) :
  quietly (snd (ensure_session out e)) (snd (test_connection out e)).
Proof.
  unfold test_connection, try_except, test_connection_try, bind at 1.
  destruct (ensure_session out e) as [[[]|x|b] e1]; simpl.
  - pose proof (test_queries_quietly out e1) as Hq.
    destruct (test_queries out e1) as [[r|x|b] e2]; simpl in *; [done| |done].
    etransitivity; [exact Hq | apply report_failure_quietly].
  - apply report_failure_quietly.
  - reflexivity.
Qed.

(** The events of one run of [_init_database]. *)
Lemma init_database_events (e : Env W) :
  ∃ d, trace (snd (_init_database out e)) = trace e ++ EvInitEnter :: d
       ∧ count_events is_init_enter d = 0%nat
       ∧ count_events is_task_run d = 0%nat
       ∧ count_events is_await d = 0%nat.
Proof.
  pose proof (init_database_cases out e) as H.
  destruct (snowflake_connect out _ (world e)) as [[c|x|[]] w1].
  - destruct (conn_cursor out c w1) as [[cu|x|[]] w2]; rewrite H; by eexists.
  - rewrite H. by eexists.
Qed.

Lemma init_database_same_tasks : steps same_tasks (_init_database out).
Proof.
  intros e. pose proof (init_database_cases out e) as H.
  destruct (snowflake_connect out _ (world e)) as [[c|x|[]] w1].
  - destruct (conn_cursor out c w1) as [[cu|x|[]] w2]; by rewrite H.
  - by rewrite H.
Qed.

Global Instance by_loop_turn_preorder : PreOrder (@by_loop_turn W).
Proof.
  split.
  - intros e. exists []. by rewrite app_nil_r.
  - intros e1 e2 e3 (d1 & H1 & I1 & A1) (d2 & H2 & I2 & A2).
    exists (d1 ++ d2). rewrite H2, H1, app_assoc, !count_events_app.
    split; [done|]. split; lia.
Qed.

(** One turn of the event loop: every initialization it runs is a task
    run. *)
Lemma run_loop_by_loop_turn : steps by_loop_turn (run_loop out).
Proof.
  apply (run_loop_keeps_turn out by_loop_turn).
  - intros k e. unfold bind, emit at 1. simpl.
    destruct (init_database_events
                (Build_Env (self e) (world e) (loop e) (trace e ++ [EvTaskRun k])
                           (event_loop e))) as (d & Hd & Hi & Ht & Ha).
    exists (EvTaskRun k :: EvInitEnter :: d). rewrite Hd. simpl.
    rewrite <- app_assoc, Hi, Ht, Ha. done.
  - intros e ts. exists []. by rewrite app_nil_r.
Qed.

(** With a task pending, the session check awaits it and the loop takes
    its turn. *)
Lemma ensure_session_pending (e : Env W) (k : nat) :
  pending_task e = Some k →
  snd (ensure_session out e) = after_turn out k e
  ∧ ∃ d, trace (after_turn out k e) = trace e ++ EvAwait k :: d
         ∧ count_events is_init_enter d = count_events is_task_run d
         ∧ count_events is_await d = 0%nat.
Proof.
  intros Hp. rewrite (ensure_session_await out e k Hp), await_task_result.
  split; [apply task_result_same_env|].
  destruct (run_loop_by_loop_turn (snd (emit (EvAwait k) e))) as (d & Hd & Hi & Ha).
  exists d. split; [|done].
  unfold after_turn. rewrite Hd. simpl. by rewrite <- app_assoc.
Qed.

Lemma ensure_session_refresh (e : Env W) :
  pending_task e = None →
  ensure_session out e
  = match connection (self e) with
    | None => _init_database out e
    | Some _ =>
        let e0 := Build_Env (self e) (snd (time_time out (world e))) (loop e)
                            (trace e ++ [EvTime]) (event_loop e) in
        if AUTH_EXPIRATION_TIME <? fst (time_time out (world e)) - auth_time (self e)
        then _init_database out e0 else (Return (), e0)
    end.
Proof.
  intros Hp. unfold ensure_session, bind at 1. rewrite Hp.
  unfold bind, get_self, call_total, ret.
  destruct (connection (self e)); [|done].
  destruct (time_time out (world e)) as [t w']. simpl.
  by destruct (AUTH_EXPIRATION_TIME <? t - auth_time (self e)).
Qed.

(** With no task pending, the session check initializes exactly when the session
    is stale. *)
Lemma ensure_session_idle (e : Env W) :
  pending_task e = None →
  ∃ d, trace (snd (ensure_session out e)) = trace e ++ d
       ∧ count_events is_await d = 0%nat
       ∧ count_events is_task_run d = 0%nat
       ∧ (session_stale out e → count_events is_init_enter d = 1%nat)
       ∧ (¬ session_stale out e → count_events is_init_enter d = 0%nat).
Proof.
  intros Hp. rewrite (ensure_session_refresh e Hp). unfold session_stale.
  destruct (connection (self e)) as [c|] eqn:Hc.
  - destruct (time_time out (world e)) as [t w'] eqn:Ht. simpl.
    set (e0 := Build_Env (self e) w' (loop e) (trace e ++ [EvTime]) (event_loop e)).
    destruct (Z.ltb_spec AUTH_EXPIRATION_TIME (t - auth_time (self e))) as [Hlt|Hge].
    + destruct (init_database_events e0) as (d & Hd & Hi & Ht' & Ha).
      exists (EvTime :: EvInitEnter :: d). rewrite Hd. simpl.
      rewrite <- app_assoc, Hi, Ht', Ha. repeat split; try done.
      intros Hns. exfalso. apply Hns. by right.
    + exists [EvTime]. repeat split; try done.
      intros [?|?]; [done | lia].
  - destruct (init_database_events e) as (d & Hd & Hi & Ht' & Ha).
    exists (EvInitEnter :: d). rewrite Hd. simpl. rewrite Hi, Ht', Ha.
    repeat split; try done. intros Hns. exfalso. apply Hns. by left.
Qed.

(** A call that is quiet after the session check keeps the promise of the session check. *)
Lemma session_contract_after_check {A} (m : M W A) (e : Env W) :
  quietly (snd (ensure_session out e)) (snd (m e)) → session_contract out m e.
Proof.
  intros (_ & [Hit Hloop] & dq & Hdq & Hq). unfold session_contract.
  pose proof (count_events_quiet is_init_enter dq init_enter_lifecycle Hq) as Qi.
  pose proof (count_events_quiet is_task_run dq task_run_lifecycle Hq) as Qt.
  pose proof (count_events_quiet is_await dq await_lifecycle Hq) as Qa.
  split.
  - intros k Hk. pose proof Hk as (_ & t & Ht & Hd).
    apply init_pending_task in Hk.
    destruct (ensure_session_pending e k Hk) as (Hsnd & d & Htr & Hi & Ha).
    rewrite Hsnd in Hdq, Hloop.
    rewrite (new_events_grown m e (EvAwait k :: d ++ dq))
      by (rewrite Hdq, Htr, <- app_assoc; done).
    simpl. rewrite !count_events_app, Qi, Qt, Qa, Hi, Ha, Hloop.
    split; [done|]. split; [done|]. split; [lia|].
    destruct (after_turn_lookup out k e k t Ht) as (s & Hs & Hne & Heq).
    split.
    + intros (t' & Ht' & Hl). rewrite Ht in Ht'. injection Ht' as <-.
      eexists. split; [exact Hs|]. simpl. specialize (Heq Hl).
      destruct (task_state_of t); try done.
      * by destruct Heq as [r ->].
      * by subst s.
    + intros Hno. rewrite Hs, Ht. f_equal. rewrite Hne; [by destruct t|].
      intros Hl. apply Hno. by exists t.
  - intros Hp%nothing_pending_task.
    destruct (ensure_session_idle e Hp) as (d & Hd & Ha & Ht & Hs & Hns).
    rewrite (new_events_grown m e (d ++ dq)) by (rewrite Hdq, Hd, <- app_assoc; done).
    rewrite !count_events_app, Qi, Qt, Qa, Ha, Ht.
    repeat split; try done.
    + intros H. rewrite (Hs H). done.
    + intros H. rewrite (Hns H). done.
Qed.

(** C1.  Both [execute_query] and [test_connection] keep the promise of
    the session check.  With an initialization pending they await it
    first and start none themselves: every [_init_database] that runs
    during the call is a task run by the event loop; the awaited task is
    done afterwards when it belongs to the caller's loop, and stays as
    it is when it belongs to another loop.  With none pending they
    initialize once if and only if there is no connection handle or the
    clock is more than 1800 seconds past the authentication timestamp.
    In particular a successful [_init_database] sets the timestamp to
    the clock reading of that call, and a later [execute_query] on that
    session with nothing pending and a clock at most 1800 seconds
    further initializes nothing. *)
Theorem C1_session_check (query : string) (e : Env W) :
  session_contract out (execute_query out query) e
  ∧ session_contract out (test_connection out) e
  ∧ (∀ e1, _init_database out e = (Return (), e1) →
       (∃ c w1 cu w2,
           snowflake_connect out (conn_params (connection_config (self e))) (world e)
             = (Return c, w1)
           ∧ conn_cursor out c w1 = (Return cu, w2)
           ∧ time_time out w2 = (auth_time (self e1), world e1))
       ∧ ∀ query' e2,
           connection (self e2) = connection (self e1) →
           auth_time (self e2) = auth_time (self e1) →
           (∀ k, ¬ init_pending e2 k) →
           fst (time_time out (world e2)) - auth_time (self e1) ≤ AUTH_EXPIRATION_TIME →
           count_events is_init_enter (new_events (execute_query out query') e2) = 0%nat).
Proof.
  split; [apply session_contract_after_check, execute_query_after_check_quietly|].
  split; [apply session_contract_after_check, test_connection_after_check_quietly|].
  intros e1 Hinit. pose proof (init_database_cases out e) as H.
  destruct (snowflake_connect out _ (world e)) as [[c|x|[]] w1] eqn:Hco; [|congruence].
  destruct (conn_cursor out c w1) as [[cu|x|[]] w2] eqn:Hcu; [|congruence].
  rewrite H in Hinit. injection Hinit as <-. simpl. split.
  - exists c, w1, cu, w2. split; [done|]. split; [done|].
    by destruct (time_time out w2).
  - intros query' e2 Hc Ha Hp Hfresh.
    pose proof (session_contract_after_check (execute_query out query') e2
                  (execute_query_after_check_quietly query' e2)) as [_ Hg].
    destruct (Hg Hp) as (_ & _ & _ & Hns). apply Hns.
    unfold session_stale. rewrite Hc, Ha. simpl. intros [?|?]; [done | lia].
Qed.

End SessionCheck.

(** ** The handles in reachable states *)

Lemma last_init_exit_elem (tr : list event) :
  last_init_exit tr = Some true → EvInitExit true ∈ tr.
Proof.
  induction tr as [|ev tr IH]; simpl; [done|].
  destruct (last_init_exit tr) as [ok|].
  - intros H. right. by apply IH.
  - destruct ev; try done. intros [= ->]. left.
Qed.

Lemma quiet_no_init_exit (d : list event) ok : Forall quiet d → EvInitExit ok ∉ d.
Proof.
  intros Hq Hin. rewrite Forall_forall in Hq. by specialize (Hq _ Hin).
Qed.

Section Handles.
Context {W : Type} (out : Outside W).

Global Instance lifecycle_preorder : PreOrder (@lifecycle W).
Proof.
  split.
  - intros e. exists []. rewrite app_nil_r, elem_of_nil. tauto.
  - intros e1 e2 e3 (d1 & H1 & C1 & K1 & O1) (d2 & H2 & C2 & K2 & O2).
    exists (d1 ++ d2). rewrite H2, H1, app_assoc, elem_of_app. tauto.
Qed.

Lemma quietly_lifecycle (e e' : Env W) : quietly e e' → lifecycle e e'.
Proof.
  intros ((Hc & Hcu & _) & _ & d & Hd & Hq).
  exists d. rewrite Hc, Hcu. pose proof (quiet_no_init_exit d true Hq). tauto.
Qed.

Lemma steps_quietly_lifecycle {A} (m : M W A) : steps quietly m → steps lifecycle m.
Proof. intros Hm e. apply quietly_lifecycle, Hm. Qed.

Lemma lifecycle_emit ev : ev ≠ EvInitExit true → steps lifecycle (@emit W ev).
Proof.
  intros Hev e. exists [ev]. split; [done|]. simpl.
  rewrite list_elem_of_singleton. intuition congruence.
Qed.

(** The three ways [_init_database] can end. *)
Lemma init_database_lifecycle : steps lifecycle (_init_database out).
Proof.
  intros e. pose proof (init_database_cases out e) as H.
  destruct (snowflake_connect out _ (world e)) as [[c|x|[]] w1];
    [destruct (conn_cursor out c w1) as [[cu|x|[]] w2]|];
    rewrite H; simpl; eexists; (split; [reflexivity|]); simpl;
    rewrite !elem_of_cons, elem_of_nil; unfold is_Some;
    intuition (try discriminate; eauto).
Qed.

Lemma run_loop_lifecycle : steps lifecycle (run_loop out).
Proof.
  apply (run_loop_keeps out lifecycle init_database_lifecycle).
  - intros k. apply lifecycle_emit. discriminate.
  - intros e ts. exists []. simpl. rewrite app_nil_r, elem_of_nil. tauto.
Qed.

Lemma task_result_lifecycle k : steps lifecycle (task_result out k).
Proof. apply task_result_keeps; typeclasses eauto. Qed.

Lemma ensure_session_lifecycle : steps lifecycle (ensure_session out).
Proof.
  pose proof init_database_lifecycle. pose proof run_loop_lifecycle.
  pose proof task_result_lifecycle.
  pose proof (fun A => @steps_quietly_lifecycle A).
  pose proof (fun k => lifecycle_emit (EvAwait k) ltac:(discriminate)).
  unfold ensure_session, await_task. step_through.
Qed.

Lemma run_op_lifecycle (o : op) : steps lifecycle (run_op out o).
Proof.
  intros e.
  assert (Hcheck : ∀ e', quietly (snd (ensure_session out e)) e' → lifecycle e e').
  { intros e' Hq. etransitivity; [apply ensure_session_lifecycle|].
    by apply quietly_lifecycle. }
  destruct o as [|query|insight| |]; simpl; unfold bind.
  - pose proof (Hcheck _ (test_connection_after_check_quietly out e)) as H.
    by destruct (test_connection out e) as [[r|x|b] e'].
  - pose proof (Hcheck _ (execute_query_after_check_quietly out query e)) as H.
    by destruct (execute_query out query e) as [[r|x|b] e'].
  - simpl. exists []. rewrite app_nil_r, elem_of_nil. tauto.
  - pose proof (get_memo_same_state e) as H.
    destruct (get_memo e) as [[r|x|b] e']; simpl in *; subst; reflexivity.
  - unfold start_init_connection.
    destruct (event_loop e) as [l|x|[]]; simpl; [|reflexivity].
    exists []. rewrite app_nil_r, elem_of_nil. tauto.
Qed.

(** C8 (amended).  In every reachable state a cursor handle exists if
    and only if some initialization has succeeded since construction;
    whenever a cursor handle exists a connection handle exists; and if
    the most recent initialization succeeded, both exist. *)
Theorem C8_handles_in_reachable_states (e : Env W) :
  reachable out e →
  (is_Some (cursor (self e)) ↔ EvInitExit true ∈ trace e)
  ∧ (is_Some (cursor (self e)) → is_Some (connection (self e)))
  ∧ (last_init_exit (trace e) = Some true →
     is_Some (cursor (self e)) ∧ is_Some (connection (self e))).
Proof.
  intros Hr.
  assert (Hinv : (is_Some (cursor (self e)) ↔ EvInitExit true ∈ trace e)
                 ∧ (is_Some (cursor (self e)) → is_Some (connection (self e)))).
  { assert (Hstep : ∀ e0 e1 : Env W,
               lifecycle e0 e1 →
               (is_Some (cursor (self e0)) ↔ EvInitExit true ∈ trace e0)
               ∧ (is_Some (cursor (self e0)) → is_Some (connection (self e0))) →
               (is_Some (cursor (self e1)) ↔ EvInitExit true ∈ trace e1)
               ∧ (is_Some (cursor (self e1)) → is_Some (connection (self e1)))).
    { intros e0 e1 (d & Hd & Hc & Hk & Ho) [Hi Hconn].
      rewrite Hd, elem_of_app. tauto. }
    induction Hr as [cfg w l|o e Hr IH|w e Hr IH|e Hr IH|k e Hr IH|l e Hr IH].
    - simpl. rewrite elem_of_nil. unfold is_Some.
      split; [split; [intros [? [=]] | done] | intros [? [=]]].
    - exact (Hstep _ _ (run_op_lifecycle o e) IH).
    - exact IH.
    - exact (Hstep _ _ (run_loop_lifecycle e) IH).
    - exact IH.
    - exact IH. }
  destruct Hinv as [Hi Hconn]. split; [done|]. split; [done|].
  intros Hlast%last_init_exit_elem. apply Hi in Hlast. auto.
Qed.

End Handles.

Lemma C8_witness :
  let e := Mock.opened in
  (is_Some (cursor (self e)) ↔ EvInitExit true ∈ trace e)
  ∧ (is_Some (cursor (self e)) → is_Some (connection (self e)))
  ∧ (last_init_exit (trace e) = Some true →
     is_Some (cursor (self e)) ∧ is_Some (connection (self e))).
Proof.
  intros e.
  assert (Hr : reachable Mock.driver e) by apply reach_op, reach_new.
  exact (C8_handles_in_reachable_states Mock.driver e Hr).
Defined.

(** C8 as stated fails: after a session was opened and a later
    re-initialization failed, the old cursor and connection handles are
    still there although the most recent initialization did not
    succeed. *)
Lemma C8_counterexample :
  reachable Mock.driver Mock.after_outage
  ∧ ¬ (is_Some (cursor (self Mock.after_outage))
       ↔ is_Some (connection (self Mock.after_outage))
         ∧ last_init_exit (trace Mock.after_outage) = Some true).
Proof.
  split.
  - apply reach_op, reach_world, reach_op, reach_new.
  - intros [H _].
    assert (Hcu : is_Some (cursor (self Mock.after_outage))) by (vm_compute; eauto).
    destruct (H Hcu) as [_ Hlast]. vm_compute in Hlast. discriminate Hlast.
Qed.

Example after_outage_state :
  cursor (self Mock.after_outage) = Some 1%nat
  ∧ connection (self Mock.after_outage) = Some 0%nat
  ∧ auth_time (self Mock.after_outage) = 1700000000
  ∧ last_init_exit (trace Mock.after_outage) = Some false.
Proof. vm_compute. done. Qed.

(** C1 on three states.  An object whose initialization is pending in
    the caller's loop: the query awaits it first, the one initialization
    that runs is the task's, and the task is done afterwards.  A fresh
    object: the first query initializes once.  A session 1800 seconds
    after a successful initialization: the query initializes nothing. *)
Lemma C1_witness :
  let out := Mock.driver in
  let e := Mock.start ∅ (Mock.healthy 1700000000) in
  let ep := snd (start_init_connection e) in
  let e2 := with_world (Mock.healthy 1700001800) (snd (_init_database out e)) in
  (head (new_events (execute_query out "SELECT 1") ep) = Some (EvAwait 0)
   ∧ count_events is_await (new_events (execute_query out "SELECT 1") ep) = 1%nat
   ∧ count_events is_init_enter (new_events (execute_query out "SELECT 1") ep)
     = count_events is_task_run (new_events (execute_query out "SELECT 1") ep)
   ∧ ∃ t, loop (snd (execute_query out "SELECT 1" ep)) !! 0%nat = Some t
          ∧ task_done (task_state_of t) = true)
  ∧ count_events is_init_enter (new_events (execute_query out "SELECT 1") e) = 1%nat
  ∧ count_events is_init_enter (new_events (execute_query out "SELECT 1") e2) = 0%nat.
Proof.
  intros out e ep e2.
  assert (Hpend : init_pending ep 0)
    by (split; [reflexivity | eexists; split; reflexivity]).
  assert (Hown : on_running_loop ep 0) by (eexists; split; reflexivity).
  assert (Hnone : ∀ k, ¬ init_pending e k) by (by intros k [[=] _]).
  assert (Hnone2 : ∀ k, ¬ init_pending e2 k) by (by intros k [[=] _]).
  destruct (C1_session_check out "SELECT 1" ep) as ((Hp & _) & _ & _).
  destruct (C1_session_check out "SELECT 1" e) as ((_ & Hidle) & _ & Hinit).
  split; [|split].
  - destruct (Hp 0%nat Hpend) as (Hhead & Hawait & Hruns & Hdone & _).
    split; [exact Hhead|]. split; [exact Hawait|]. split; [exact Hruns|].
    exact (Hdone Hown).
  - destruct (Hidle Hnone) as (_ & _ & Hstale & _). apply Hstale. by left.
  - destruct (Hinit (snd (_init_database out e)) eq_refl) as [_ Hlater].
    apply (Hlater "SELECT 1"%string e2); [reflexivity | reflexivity | exact Hnone2 |].
    vm_compute. discriminate.
Defined.

(** One second later the same query initializes again, once. *)
Example reinitialize_after_expiry :
  let out := Mock.driver in
  let e := with_world (Mock.healthy 1700001801) Mock.opened in
  count_events is_init_enter (new_events (execute_query out "SELECT 1") e) = 1%nat
  ∧ count_events is_init_enter (new_events (test_connection out) e) = 1%nat.
Proof. vm_compute. done. Qed.

(** A query issued right after [start_init_connection] awaits the task;
    the one initialization that runs is the task's. *)
Example await_background_init :
  let out := Mock.driver in
  let e := snd (start_init_connection (Mock.start ∅ (Mock.healthy 1700000000))) in
  pending_task e = Some 0%nat
  ∧ new_events (execute_query out "SELECT 1") e
    = [EvAwait 0; EvTaskRun 0; EvInitEnter; EvConnect; EvCursor; EvTime;
       EvInitExit true; EvLogDebug "Executing query: SELECT 1"; EvExecute "SELECT 1";
       EvDescription; EvFetchall; EvUuid4].
Proof. vm_compute. done. Qed.

(** * Further properties of the code *)

(** ** What a computation emits *)

Section Grows.
Context {W : Type}.

Lemma grows_emit (P : event → Prop) ev : P ev → steps (grows P) (@emit W ev).
Proof. intros HP e. exists [ev]. split; [done|]. by constructor. Qed.

Lemma grows_call {A} (P : event → Prop) ev (f : W → answer A * W) :
  P ev → steps (grows P) (call ev f).
Proof.
  intros HP e. unfold call. destruct (f (world e)) as [o w].
  exists [ev]. split; [done|]. by constructor.
Qed.

Lemma grows_call_total {A} (P : event → Prop) ev (f : W → A * W) :
  P ev → steps (grows P) (call_total ev f).
Proof.
  intros HP e. unfold call_total. destruct (f (world e)) as [o w].
  exists [ev]. split; [done|]. by constructor.
Qed.

Lemma grows_update (P : event → Prop) (f : SnowflakeDB → SnowflakeDB) :
  steps (grows P) (@update_self W f).
Proof. intros e. exists []. split; [by rewrite app_nil_r | constructor]. Qed.

Lemma grows_weaken (P Q : event → Prop) (e e' : Env W) :
  (∀ ev, P ev → Q ev) → grows P e e' → grows Q e e'.
Proof.
  intros HPQ (d & Hd & HP). exists d. split; [done|].
  eapply Forall_impl; eauto.
Qed.

Lemma grows_new_events {A} (P : event → Prop) (m : M W A) (e : Env W) :
  grows P e (snd (m e)) → Forall P (new_events m e).
Proof.
  intros (d & Hd & HP). unfold new_events. by rewrite Hd, drop_app_length.
Qed.

Lemma quietly_grows (e e' : Env W) : quietly e e' → grows quiet e e'.
Proof. by intros (_ & _ & H). Qed.

End Grows.

#[export] Hint Resolve grows_emit grows_call grows_call_total grows_update : steps.
#[export] Hint Extern 1 (check_event _) => (by left) || (by right) : steps.
#[export] Hint Extern 1 (sends_only _ _) =>
  simpl; first [exact I | repeat constructor] : steps.

Section SessionCheckEvents.
Context {W : Type} (out : Outside W).

Lemma init_database_check_events : steps (grows check_event) (_init_database out).
Proof. unfold _init_database. step_through. Qed.

Lemma run_loop_check_events : steps (grows check_event) (run_loop out).
Proof.
  apply (run_loop_keeps out (grows check_event) init_database_check_events).
  - intros k. apply grows_emit. by left.
  - intros e ts. exists []. split; [by rewrite app_nil_r | constructor].
Qed.

Lemma task_result_check_events k : steps (grows check_event) (task_result out k).
Proof. apply task_result_keeps; typeclasses eauto. Qed.

(** The session check makes no call on a cursor and writes no log
    record. *)
Lemma ensure_session_check_events : steps (grows check_event) (ensure_session out).
Proof.
  pose proof init_database_check_events. pose proof run_loop_check_events.
  pose proof task_result_check_events.
  unfold ensure_session, await_task. step_through.
Qed.

End SessionCheckEvents.

(** ** Scripts of driver calls *)

Section Scripts.
Context {W : Type}.

Lemma script_ret {A} (a : A) : follows_script [] (@ret W A a).
Proof. intros e. exists []. by rewrite app_nil_r. Qed.

Lemma script_raise {A} x : follows_script [] (@raise W A x).
Proof. intros e. exists []. simpl. split; [by rewrite app_nil_r | reflexivity]. Qed.

Lemma script_get_self : follows_script [] (@get_self W).
Proof. intros e. exists []. by rewrite app_nil_r. Qed.

Lemma script_call {A} ev (f : W → answer A * W) : follows_script [ev] (call ev f).
Proof.
  intros e. unfold call.
  destruct (f (world e)) as [[a|x|[]] w]; exists [ev]; simpl;
    (split; [done | reflexivity]).
Qed.

Lemma script_call_total {A} ev (f : W → A * W) : follows_script [ev] (call_total ev f).
Proof. intros e. unfold call_total. destruct (f (world e)) as [a w]. by exists [ev]. Qed.

Lemma script_bind {A B} (L1 L2 : list event) (m : M W A) (f : A → M W B) :
  follows_script L1 m → (∀ a, follows_script L2 (f a)) →
  follows_script (L1 ++ L2) (bind m f).
Proof.
  intros Hm Hf e. unfold bind. destruct (Hm e) as (d1 & Hd1 & Ho1).
  destruct (m e) as [[a|x|b] e1]; simpl in *.
  - subst d1. destruct (Hf a e1) as (d2 & Hd2 & Ho2).
    exists (L1 ++ d2). split; [by rewrite Hd2, Hd1, app_assoc|].
    destruct (f a e1) as [[b|x|b] e2]; simpl in *.
    + by subst.
    + by apply prefix_app.
    + by apply prefix_app.
  - exists d1. split; [done|]. by apply prefix_app_r.
  - exists d1. split; [done|]. by apply prefix_app_r.
Qed.

Lemma script_eq {A} (L L' : list event) (m : M W A) :
  follows_script L m → L = L' → follows_script L' m.
Proof. by intros H <-. Qed.

End Scripts.

Section SuiteScripts.
Context {W : Type} (out : Outside W).

Lemma cursor_attr_script attr : follows_script [] (@cursor_attr W attr).
Proof.
  unfold cursor_attr.
  apply (script_bind [] [] get_self); [apply script_get_self | intros s].
  destruct (cursor s); [apply script_ret | apply script_raise].
Qed.

Lemma unpack3_script r : follows_script [] (@unpack3 W r).
Proof. unfold unpack3. repeat case_match; first [apply script_ret | apply script_raise]. Qed.

Lemma second_column_script tables : follows_script [] (@second_column W tables).
Proof.
  induction tables as [|table rest IH]; simpl; [apply script_ret|].
  destruct (table !! 1%nat); [|apply script_raise].
  eapply script_eq; [apply script_bind; [exact IH | intros ?; apply script_ret] | done].
Qed.

(** The driver calls of the [try] suite of [execute_query], in order. *)
Lemma execute_query_try_script (query : string) :
  follows_script [EvExecute query; EvDescription; EvFetchall; EvUuid4]
    (execute_query_try out query).
Proof.
  unfold execute_query_try. eapply script_eq.
  - apply script_bind; [apply cursor_attr_script | intros ?].
    apply script_bind; [apply script_call | intros ?].
    apply script_bind; [apply cursor_attr_script | intros ?].
    apply script_bind; [apply script_call | intros ?].
    apply script_bind;
      [match goal with |- follows_script _ (match ?x with _ => _ end) =>
         destruct x; [apply script_ret | apply script_raise] end | intros ?].
    apply script_bind; [apply cursor_attr_script | intros ?].
    apply script_bind; [apply script_call | intros ?].
    apply script_bind; [apply script_call_total | intros ?].
    apply script_ret.
  - reflexivity.
Qed.

(** The driver calls of the body of [test_connection], in order. *)
Lemma test_queries_script :
  follows_script
    [EvExecute "SELECT CURRENT_ROLE(), CURRENT_DATABASE(), CURRENT_SCHEMA()";
     EvFetchone; EvExecute "SHOW TABLES"; EvFetchall]
    (test_queries out).
Proof.
  unfold test_queries. eapply script_eq.
  - apply script_bind; [apply cursor_attr_script | intros ?].
    apply script_bind; [apply script_call | intros ?].
    apply script_bind; [apply cursor_attr_script | intros ?].
    apply script_bind; [apply script_call | intros ?].
    apply script_bind; [apply unpack3_script | intros [[? ?] ?]].
    apply script_bind; [apply cursor_attr_script | intros ?].
    apply script_bind; [apply script_call | intros ?].
    apply script_bind; [apply cursor_attr_script | intros ?].
    apply script_bind; [apply script_call | intros ?].
    apply script_bind; [apply second_column_script | intros ?].
    apply script_ret.
  - reflexivity.
Qed.

End SuiteScripts.

(** ** The order of the driver calls *)

Lemma count_events_prefix (p : event → bool) (d L : list event) :
  d `prefix_of` L → (count_events p d ≤ count_events p L)%nat.
Proof. intros [k ->]. rewrite count_events_app. lia. Qed.

Section CallOrder.
Context {W : Type} (out : Outside W).

(** What [execute_query] does once the session check has returned. *)
Lemma execute_query_suite_events (query : string) (e1 : Env W) :
  let m := try_except (execute_query_try out query) (log_and_reraise query) in
  ∃ d, trace (snd (m e1)) = trace e1 ++ d
       ∧ match fst (m e1) with
         | Return _ => d = [EvExecute query; EvDescription; EvFetchall; EvUuid4]
         | Raise x =>
             ∃ d0, d0 `prefix_of` [EvExecute query; EvDescription; EvFetchall; EvUuid4]
                   ∧ d = d0 ++ [EvLogError (query_failure_message query x)]
         | RaiseBase _ => False
         end.
Proof.
  simpl. unfold try_except.
  destruct (execute_query_try_script out query e1) as (d & Hd & Ho).
  pose proof (execute_query_try_never_base out query e1) as Hnb.
  destruct (execute_query_try out query e1) as [[r|x|b] e2]; simpl in *.
  - by exists d.
  - exists (d ++ [EvLogError (query_failure_message query x)]).
    split; [by rewrite Hd, app_assoc | by exists d].
  - by destruct (Hnb b e2).
Qed.

(** What [test_connection] does once the session check has returned. *)
Lemma test_connection_suite_events (e1 : Env W) :
  let L := [EvExecute "SELECT CURRENT_ROLE(), CURRENT_DATABASE(), CURRENT_SCHEMA()";
            EvFetchone; EvExecute "SHOW TABLES"; EvFetchall] in
  match test_queries out e1 with
  | (Return r, e2) => trace e2 = trace e1 ++ L
  | (Raise x, e2) => ∃ d0, d0 `prefix_of` L ∧ trace e2 = trace e1 ++ d0
  | (RaiseBase _, _) => False
  end.
Proof.
  simpl. destruct (test_queries_script out e1) as (d & Hd & Ho).
  pose proof (test_queries_never_base out e1) as Hnb.
  destruct (test_queries out e1) as [[r|x|b] e2]; simpl in *.
  - by subst.
  - by exists d.
  - by destruct (Hnb b e2).
Qed.

(** A script of driver calls writes no log record. *)
Lemma log_records_prefix (d0 L : list event) (tail : list event) :
  d0 `prefix_of` L → log_records L = [] →
  log_records (d0 ++ tail) = log_records tail.
Proof.
  intros [rest ->]. revert rest. induction d0 as [|ev d0 IH]; intros rest HL; [done|].
  simpl in *. destruct ev; try by eapply IH. discriminate HL.
Qed.

(** X1.  [execute_query] is left by whatever the session check is left
    by, at once: an instance of [Exception] or [CancelledError] passes
    unchanged, [logger.debug] is not called, nothing is logged and no
    statement reaches the driver.  Once the check has returned,
    [logger.debug] is called (under the module's own logging level,
    INFO, this call writes no record), and then the driver is called in
    the order execute, description, fetchall, uuid4: all four calls and
    no log record when [execute_query] returns, an initial part of them
    followed by one [logger.error] record when it raises. *)
Theorem X1_execute_query_call_order (query : string) (e : Env W) :
  match ensure_session out e with
  | (Raise x, e1) => execute_query out query e = (Raise x, e1)
  | (RaiseBase b, e1) => execute_query out query e = (RaiseBase b, e1)
  | (Return _, e1) =>
      ∃ d, trace (snd (execute_query out query e))
           = trace e1 ++ EvLogDebug ("Executing query: " +:+ query) :: d
           ∧ match fst (execute_query out query e) with
             | Return _ =>
                 d = [EvExecute query; EvDescription; EvFetchall; EvUuid4]
                 ∧ log_records (EvLogDebug ("Executing query: " +:+ query) :: d) = []
             | Raise x =>
                 let message :=
                   "Database error executing "
                     +:+ String (ascii_of_nat 34)
                           (query +:+ String (ascii_of_nat 34) (": " +:+ exn_text x)) in
                 ∃ d0, d0 `prefix_of` [EvExecute query; EvDescription; EvFetchall; EvUuid4]
                       ∧ d = d0 ++ [EvLogError message]
                       ∧ log_records (EvLogDebug ("Executing query: " +:+ query) :: d)
                         = [message]
             | RaiseBase _ => False
             end
  end.
Proof.
  destruct (ensure_session out e) as [[[]|x|b] e1] eqn:Hcheck.
  - rewrite (execute_query_after_check out query e e1 Hcheck).
    destruct (execute_query_suite_events query (after_debug_log query e1))
      as (d & Hd & Ho).
    exists d. split; [rewrite Hd; simpl; by rewrite <- app_assoc|].
    destruct (fst _) as [r|x|b]; [| |done].
    + by subst d.
    + destruct Ho as (d0 & Hp & ->). exists d0. split; [done|]. split; [done|].
      simpl. by rewrite (log_records_prefix d0 _ _ Hp).
  - unfold execute_query, bind at 1. by rewrite Hcheck.
  - unfold execute_query, bind at 1. by rewrite Hcheck.
Qed.

Lemma test_connection_after_check (e e1 : Env W) :
  ensure_session out e = (Return (), e1) →
  test_connection out e = try_except (test_queries out) report_failure e1.
Proof.
  intros Hc. unfold test_connection, try_except, test_connection_try, bind.
  by rewrite Hc.
Qed.

Lemma test_connection_check_raises (e e1 : Env W) x :
  ensure_session out e = (Raise x, e1) →
  test_connection out e = report_failure x e1.
Proof.
  intros Hc. unfold test_connection, try_except, test_connection_try, bind at 1.
  by rewrite Hc.
Qed.

Lemma test_connection_check_cancelled (e e1 : Env W) b :
  ensure_session out e = (RaiseBase b, e1) →
  test_connection out e = (RaiseBase b, e1).
Proof.
  intros Hc. unfold test_connection, try_except, test_connection_try, bind at 1.
  by rewrite Hc.
Qed.

(** X2.  [test_connection] turns an instance of [Exception] raised by
    the session check into one [logger.error] record and the pair
    [(False, message)] without calling the driver's cursor; a
    [CancelledError] from the session check passes unchanged, with no
    record and no call.  Once the check has returned, it calls the
    driver in the order execute, fetchone, execute, fetchall: all four
    and no log record when it reports success, an initial part of them
    followed by one error record when it reports failure. *)
Theorem X2_test_connection_call_order (e : Env W) :
  match ensure_session out e with
  | (Raise x, e1) =>
      fst (test_connection out e)
      = Return (false, ("Connection test failed: " +:+ exn_text x)%string)
      ∧ trace (snd (test_connection out e))
        = trace e1 ++ [EvLogError ("Connection test failed: " +:+ exn_text x)]
  | (RaiseBase b, e1) => test_connection out e = (RaiseBase b, e1)
  | (Return _, e1) =>
      let L := [EvExecute "SELECT CURRENT_ROLE(), CURRENT_DATABASE(), CURRENT_SCHEMA()";
                EvFetchone; EvExecute "SHOW TABLES"; EvFetchall] in
      ∃ success message,
        fst (test_connection out e) = Return (success, message)
        ∧ if success
          then trace (snd (test_connection out e)) = trace e1 ++ L
          else ∃ d0, d0 `prefix_of` L
                     ∧ trace (snd (test_connection out e))
                       = trace e1 ++ d0 ++ [EvLogError message]
  end.
Proof.
  destruct (ensure_session out e) as [[[]|x|b] e1] eqn:Hcheck.
  - rewrite (test_connection_after_check e e1 Hcheck). unfold try_except.
    pose proof (test_connection_suite_events e1) as Hs.
    pose proof (test_queries_success out e1) as Ht.
    destruct (test_queries out e1) as [[[success message]|x|b] e2]; simpl in *;
      [| |done].
    + exists success, message. split; [done|].
      pose proof (Ht (success, message) e2 eq_refl) as Hsuc. simpl in Hsuc.
      by subst success.
    + destruct Hs as (d0 & Hp & Hd0).
      exists false, (test_failure_message x). split; [done|].
      exists d0. split; [done|]. by rewrite Hd0, <- app_assoc.
  - by rewrite (test_connection_check_raises e e1 x Hcheck).
  - exact (test_connection_check_cancelled e e1 b Hcheck).
Qed.

End CallOrder.

(** ** The statements sent to the driver *)

Lemma check_event_sends_only (allowed : list string) ev :
  check_event ev → sends_only allowed ev.
Proof. intros [H| ->]; [by destruct ev | exact I]. Qed.

Lemma check_events_no_execute (d : list event) :
  Forall check_event d → count_events is_execute d = 0%nat.
Proof.
  induction 1 as [|ev d Hev _ IH]; simpl; [done|]. rewrite IH.
  by destruct Hev as [H| ->]; [destruct ev|].
Qed.

Lemma count_events_Forall_false (p : event → bool) (d : list event) :
  Forall (fun ev => p ev = false) d → count_events p d = 0%nat.
Proof. induction 1 as [|ev d Hev _ IH]; simpl; [done|]. by rewrite IH, Hev. Qed.

Section Statements.
Context {W : Type} (out : Outside W).

Lemma cursor_attr_grows (P : event → Prop) attr : steps (grows P) (@cursor_attr W attr).
Proof. unfold cursor_attr. step_through. Qed.

Lemma unpack3_grows (P : event → Prop) r : steps (grows P) (@unpack3 W r).
Proof. unfold unpack3. step_through. Qed.

Lemma second_column_grows (P : event → Prop) tables :
  steps (grows P) (@second_column W tables).
Proof. induction tables as [|table rest IH]; simpl; step_through. Qed.

Lemma ensure_session_sends_nothing (allowed : list string) :
  steps (grows (sends_only allowed)) (ensure_session out).
Proof.
  intros e. eapply grows_weaken; [apply check_event_sends_only|].
  apply ensure_session_check_events.
Qed.

Lemma execute_query_sends (query : string) :
  steps (grows (sends_only [query])) (execute_query out query).
Proof.
  pose proof (ensure_session_sends_nothing [query]).
  pose proof (cursor_attr_grows (sends_only [query])).
  unfold execute_query, execute_query_try, log_and_reraise. step_through.
Qed.

Lemma test_connection_sends :
  steps (grows (sends_only (sql_of OpTestConnection))) (test_connection out).
Proof.
  pose proof (ensure_session_sends_nothing (sql_of OpTestConnection)).
  pose proof (cursor_attr_grows (sends_only (sql_of OpTestConnection))).
  pose proof (unpack3_grows (sends_only (sql_of OpTestConnection))).
  pose proof (second_column_grows (sends_only (sql_of OpTestConnection))).
  unfold test_connection, test_connection_try, test_queries, report_failure.
  step_through.
Qed.

(** The shape of the events of the two gated operations: those of the
    session check, an initial part of the script, log records. *)
Lemma execute_query_events (query : string) (e : Env W) :
  ∃ dc d tail,
    trace (snd (execute_query out query e)) = trace e ++ dc ++ d ++ tail
    ∧ Forall check_event dc
    ∧ d `prefix_of` [EvLogDebug ("Executing query: " +:+ query); EvExecute query;
                     EvDescription; EvFetchall; EvUuid4]
    ∧ count_events is_execute tail = 0%nat.
Proof.
  destruct (ensure_session_check_events out e) as (dc & Hdc & Hc).
  destruct (ensure_session out e) as [[[]|x|b] e1] eqn:Hcheck; simpl in Hdc.
  - destruct (execute_query_suite_events out query (after_debug_log query e1))
      as (d & Hd & Ho).
    rewrite <- (execute_query_after_check out query e e1 Hcheck) in Hd, Ho.
    simpl in Hd. rewrite Hdc in Hd.
    destruct (fst (execute_query out query e)) as [r|x|b]; [| |done].
    + exists dc, (EvLogDebug ("Executing query: " +:+ query) :: d), [].
      rewrite Hd, app_nil_r, <- !app_assoc. subst d. repeat split; done.
    + destruct Ho as (d0 & Hp & ->).
      exists dc, (EvLogDebug ("Executing query: " +:+ query) :: d0),
        [EvLogError (query_failure_message query x)].
      rewrite Hd, <- !app_assoc. repeat split; try done.
      by apply prefix_cons.
  - exists dc, [], []. rewrite app_nil_r. repeat split; try done.
    + unfold execute_query, bind at 1. by rewrite Hcheck.
    + apply prefix_nil.
  - exists dc, [], []. rewrite app_nil_r. repeat split; try done.
    + unfold execute_query, bind at 1. by rewrite Hcheck.
    + apply prefix_nil.
Qed.

Lemma test_connection_events (e : Env W) :
  ∃ dc d tail,
    trace (snd (test_connection out e)) = trace e ++ dc ++ d ++ tail
    ∧ Forall check_event dc
    ∧ d `prefix_of` [EvExecute "SELECT CURRENT_ROLE(), CURRENT_DATABASE(), CURRENT_SCHEMA()";
                     EvFetchone; EvExecute "SHOW TABLES"; EvFetchall]
    ∧ count_events is_execute tail = 0%nat.
Proof.
  destruct (ensure_session_check_events out e) as (dc & Hdc & Hc).
  destruct (ensure_session out e) as [[[]|x|b] e1] eqn:Hcheck; simpl in Hdc.
  - rewrite (test_connection_after_check out e e1 Hcheck). unfold try_except.
    pose proof (test_connection_suite_events out e1) as Hs.
    destruct (test_queries out e1) as [[r|x|b] e2]; simpl in Hs; [| |done].
    + eexists dc, _, []. simpl. rewrite Hs, Hdc, app_nil_r, <- app_assoc.
      repeat split; done.
    + destruct Hs as (d0 & Hp & Hd0).
      exists dc, d0, [EvLogError (test_failure_message x)]. simpl.
      rewrite Hd0, Hdc, <- !app_assoc. repeat split; done.
  - rewrite (test_connection_check_raises out e e1 x Hcheck).
    exists dc, [], [EvLogError (test_failure_message x)]. simpl.
    rewrite Hdc, <- app_assoc. repeat split; try done. apply prefix_nil.
  - rewrite (test_connection_check_cancelled out e e1 b Hcheck).
    exists dc, [], []. simpl. rewrite Hdc, app_nil_r.
    repeat split; try done. apply prefix_nil.
Qed.

(** X3.  An operation hands the driver no other statement than its own:
    [execute_query] the caller's text, at most once; [test_connection]
    its two fixed statements, at most two executions; [add_insight],
    [get_memo] and [start_init_connection] none; and the event loop,
    which runs the background initializations, none either. *)
Theorem X3_only_the_given_sql (o : op) (e : Env W) :
  Forall (sends_only (sql_of o)) (new_events (run_op out o) e)
  ∧ (count_events is_execute (new_events (run_op out o) e) ≤ length (sql_of o))%nat
  ∧ Forall (sends_only []) (new_events (run_loop out) e).
Proof.
  assert (Hgrow : ∀ (d dc ds tail : list event),
             d = dc ++ ds ++ tail → Forall check_event dc →
             count_events is_execute tail = 0%nat →
             (count_events is_execute d ≤ count_events is_execute ds)%nat).
  { intros d dc ds tail -> Hc Ht.
    rewrite !count_events_app, (check_events_no_execute dc Hc), Ht. lia. }
  split; [|split].
  - apply grows_new_events. destruct o as [|query|insight| |]; simpl; unfold bind.
    + pose proof (test_connection_sends e) as H.
      by destruct (test_connection out e) as [[r|x|b] e'].
    + pose proof (execute_query_sends query e) as H.
      by destruct (execute_query out query e) as [[r|x|b] e'].
    + exists []. split; [by rewrite app_nil_r | constructor].
    + pose proof (get_memo_same_state e) as H.
      destruct (get_memo e) as [[r|x|b] e']; simpl in *; subst; reflexivity.
    + exists []. split; [|constructor]. rewrite app_nil_r.
      exact (start_init_connection_trace out e).
  - destruct o as [|query|insight| |].
    + destruct (test_connection_events e) as (dc & d & tail & Hd & Hc & Hp & Ht).
      erewrite new_events_grown.
      2:{ simpl. unfold bind.
          destruct (test_connection out e) as [[r|x|b] e']; simpl in *; exact Hd. }
      etransitivity; [by eapply Hgrow |].
      apply (count_events_prefix is_execute) in Hp. exact Hp.
    + destruct (execute_query_events query e) as (dc & d & tail & Hd & Hc & Hp & Ht).
      erewrite new_events_grown.
      2:{ simpl. unfold bind.
          destruct (execute_query out query e) as [[r|x|b] e']; simpl in *; exact Hd. }
      etransitivity; [by eapply Hgrow |].
      apply (count_events_prefix is_execute) in Hp. exact Hp.
    + rewrite (new_events_grown _ e []); [done | by rewrite app_nil_r].
    + rewrite (new_events_grown _ e []); [done|]. simpl. unfold bind.
      pose proof (get_memo_same_state e) as H.
      destruct (get_memo e) as [[r|x|b] e']; simpl in *; subst; by rewrite app_nil_r.
    + rewrite (new_events_grown _ e []); [done|].
      rewrite app_nil_r. exact (start_init_connection_trace out e).
  - apply grows_new_events.
    eapply grows_weaken; [apply check_event_sends_only | apply run_loop_check_events].
Qed.

End Statements.

(** ** The connection parameters *)

(** X4.  Whatever the configuration holds, the driver is given exactly
    nine keyword arguments: the authenticator is always SNOWFLAKE_JWT,
    the other eight are the configuration's entries ([None] for a
    missing one, [private_key_path] and [private_key_passphrase] under
    the driver's names), and an entry under any other key (a password,
    an authenticator of the caller's) changes nothing. *)
Theorem X4_conn_params (cfg : gmap string string) :
  conn_params cfg !! "authenticator" = Some (Some "SNOWFLAKE_JWT")
  ∧ conn_params cfg !! "account" = Some (cfg !! "account")
  ∧ conn_params cfg !! "user" = Some (cfg !! "user")
  ∧ conn_params cfg !! "private_key_file" = Some (cfg !! "private_key_path")
  ∧ conn_params cfg !! "private_key_file_pwd" = Some (cfg !! "private_key_passphrase")
  ∧ conn_params cfg !! "warehouse" = Some (cfg !! "warehouse")
  ∧ conn_params cfg !! "database" = Some (cfg !! "database")
  ∧ conn_params cfg !! "schema" = Some (cfg !! "schema")
  ∧ conn_params cfg !! "role" = Some (cfg !! "role")
  ∧ size (conn_params cfg) = 9%nat
  ∧ (∀ k v,
       k ∉ ["account"; "user"; "private_key_path"; "private_key_passphrase";
            "warehouse"; "database"; "schema"; "role"] →
       conn_params (<[k := v]> cfg) = conn_params cfg).
Proof.
  do 10 (split; [reflexivity|]).
  intros k v Hk. unfold conn_params.
  rewrite !lookup_insert_ne; [done|..];
    intros ->; apply Hk; repeat constructor.
Qed.

(** ** Initialize, when the cursor cannot be opened *)

Section InitializeCursor.
Context {W : Type} (out : Outside W).

(** X5.  When the driver opens the connection and then fails to open a
    cursor, [_init_database] raises the wrapped error having already
    replaced the connection handle by the new connection, while the
    cursor handle and the authentication timestamp are the previous
    ones; the clock is not read. *)
Theorem X5_cursor_failure_keeps_new_connection (e : Env W) c w1 cause w2 :
  snowflake_connect out (conn_params (connection_config (self e))) (world e)
    = (Return c, w1) →
  conn_cursor out c w1 = (Raise cause, w2) →
  ∃ e', _init_database out e = (Raise (init_failure cause), e')
        ∧ connection (self e') = Some c
        ∧ cursor (self e') = cursor (self e)
        ∧ auth_time (self e') = auth_time (self e)
        ∧ world e' = w2
        ∧ trace e' = trace e ++ [EvInitEnter; EvConnect; EvCursor; EvInitExit false].
Proof.
  intros Hc Hcu. pose proof (init_database_cases out e) as H.
  rewrite Hc, Hcu in H. eexists. split; [exact H|]. done.
Qed.

End InitializeCursor.

Lemma X5_witness :
  let e := with_world (Mock.cursorless 1700000100) Mock.opened in
  connection (self e) = Some 0%nat
  ∧ ∃ e', _init_database Mock.driver e
          = (Raise (init_failure
                      (Mock.driver_error "390114: Authentication token has expired")), e')
          ∧ connection (self e') = Some 5%nat
          ∧ cursor (self e') = cursor (self e)
          ∧ auth_time (self e') = auth_time (self e)
          ∧ world e' = snd (Mock.fresh_handle (Mock.cursorless 1700000100))
          ∧ trace e' = trace e ++ [EvInitEnter; EvConnect; EvCursor; EvInitExit false].
Proof.
  intros e. split; [reflexivity|].
  exact (X5_cursor_failure_keeps_new_connection Mock.driver e 5%nat _ _ _
           eq_refl eq_refl).
Defined.

(** ** Rows that do not have one value per column *)

Lemma zip_keys_elem (columns : list string) (r : row) (x : string) :
  x ∈ map fst (zip columns r) → x ∈ columns.
Proof.
  revert r. induction columns as [|c0 cs IH]; intros [|v0 rs]; simpl;
    try (by intros ?%elem_of_nil).
  intros [->|Hx]%elem_of_cons; [left | right; by eapply IH].
Qed.

Lemma zip_keys_NoDup (columns : list string) (r : row) :
  NoDup columns → NoDup (map fst (zip columns r)).
Proof.
  revert r. induction columns as [|c0 cs IH]; intros [|v0 rs] Hnd; simpl;
    try constructor.
  - apply NoDup_cons in Hnd as [Hc0 _]. intros Hin. apply Hc0.
    by eapply zip_keys_elem.
  - apply NoDup_cons in Hnd as [_ Hcs]. by apply IH.
Qed.

Lemma dict_get_zip (columns : list string) (r : row) (j : nat) (c : string) :
  NoDup columns → columns !! j = Some c → dict_get c (zip columns r) = r !! j.
Proof.
  revert r j. induction columns as [|c0 cs IH]; intros [|v0 rs] j Hnd Hj; simpl in *;
    try done.
  apply NoDup_cons in Hnd as [Hc0 Hcs]. destruct j as [|j]; simpl in *.
  - injection Hj as ->. by rewrite String.eqb_refl.
  - destruct (String.eqb_spec c c0) as [->|Hne].
    + exfalso. apply Hc0. by eapply list_elem_of_lookup_2.
    + by apply IH.
Qed.

Section RaggedRows.
Context {W : Type} (out : Outside W).

(** X6.  For pairwise distinct column names, whatever the number of
    values in a row: its mapping is the list of pairs (column, value) up
    to the shorter of the two, in column order.  A column for which a
    short row has no value is absent from the mapping, and the values a
    long row has beyond the last column are dropped. *)
Theorem X6_rows_of_any_length (query : string) (e e1 : Env W) descs rows u w :
  ensure_session out e = (Return (), e1) →
  driver_answers out query (after_debug_log query e1) descs rows u w →
  NoDup (map md_name descs) →
  ∃ result_rows data_id e',
    execute_query out query e = (Return (result_rows, data_id), e')
    ∧ result_rows = map (zip (map md_name descs)) rows
    ∧ ∀ r, r ∈ rows →
        length (zip (map md_name descs) r) = (length descs `min` length r)%nat
        ∧ bound_by_position (map md_name descs) r (zip (map md_name descs) r)
        ∧ (∀ j c, map md_name descs !! j = Some c → (length r ≤ j)%nat →
             dict_get c (zip (map md_name descs) r) = None).
Proof.
  intros Hg Ha Hnd.
  destruct (execute_query_answers out query e e1 descs rows u w Hg Ha) as [e' He'].
  eexists _, _, e'. split; [exact He'|]. split.
  - apply map_ext. intros r. apply dict_NoDup. by apply zip_keys_NoDup.
  - intros r _. split; [|split].
    + by rewrite length_zip_with, length_map.
    + intros j c Hj. by apply dict_get_zip.
    + intros j c Hj Hlen. rewrite (dict_get_zip _ r j c Hnd Hj).
      by apply lookup_ge_None.
Qed.

(** X7.  When the driver has run the statement but its descriptor is
    [None] (no result set), [execute_query] raises the [TypeError] of
    iterating [None]: the statement has been executed, the error is
    logged, and neither [fetchall] nor [uuid4] is called. *)
Theorem X7_no_result_set (query : string) (e e1 : Env W) cu w1 w2 :
  ensure_session out e = (Return (), e1) →
  cursor (self e1) = Some cu →
  cur_execute out cu query (world e1) = (Return (), w1) →
  cur_description out cu w1 = (Return None, w2) →
  let x := Exn TypeError "'NoneType' object is not iterable" None in
  ∃ e', execute_query out query e = (Raise x, e')
        ∧ trace e' = trace e1 ++ [EvLogDebug ("Executing query: " +:+ query);
                                  EvExecute query; EvDescription;
                                  EvLogError (query_failure_message query x)]
        ∧ self e' = self e1
        ∧ world e' = w2.
Proof.
  intros Hg Hcu Hex Hde x. rewrite (execute_query_after_check out query e e1 Hg).
  unfold try_except, execute_query_try, cursor_attr, bind, get_self, call, call_total,
    ret, raise, after_debug_log; simpl.
  rewrite Hcu; simpl. rewrite Hex; simpl. rewrite Hcu; simpl. rewrite Hde; simpl.
  eexists. split; [reflexivity|]. simpl. by rewrite <- !app_assoc.
Qed.

End RaggedRows.

Lemma X6_witness :
  let out := Mock.driver in
  let e := Mock.start ∅ (Mock.ragged 1700000000) in
  let descs := [ {| md_name := "id"; md_type_code := 0 |};
                 {| md_name := "name"; md_type_code := 2 |} ] in
  let rows := [[VInt 1]; [VInt 2; VStr "b"; VStr "surplus"]] in
  ∃ result_rows data_id e',
    execute_query out "SELECT id, name FROM t" e = (Return (result_rows, data_id), e')
    ∧ result_rows = map (zip (map md_name descs)) rows
    ∧ ∀ r, r ∈ rows →
        length (zip (map md_name descs) r) = (length descs `min` length r)%nat
        ∧ bound_by_position (map md_name descs) r (zip (map md_name descs) r)
        ∧ (∀ j c, map md_name descs !! j = Some c → (length r ≤ j)%nat →
             dict_get c (zip (map md_name descs) r) = None).
Proof.
  intros out e descs rows.
  assert (Hg : ensure_session out e = (Return (), snd (ensure_session out e)))
    by reflexivity.
  assert (Ha : driver_answers out "SELECT id, name FROM t"
                 (after_debug_log "SELECT id, name FROM t" (snd (ensure_session out e)))
                 descs rows 0x123e4567e89b42d3a456426614174000%N
                 (snd (uuid_uuid4 out (world (snd (ensure_session out e)))))).
  { exists 1%nat. eexists _, _, _. repeat split; reflexivity. }
  assert (Hnd : NoDup (map md_name descs)).
  { apply NoDup_cons. split; [by intros ?%list_elem_of_singleton|].
    apply NoDup_singleton. }
  exact (X6_rows_of_any_length out "SELECT id, name FROM t" e _ descs rows _ _
           Hg Ha Hnd).
Defined.

Example ragged_rows_example :
  fst (execute_query Mock.driver "SELECT id, name FROM t"
         (Mock.start ∅ (Mock.ragged 1700000000)))
  = Return ([[("id", VInt 1)]; [("id", VInt 2); ("name", VStr "b")]],
            "123e4567-e89b-42d3-a456-426614174000"%string).
Proof. vm_compute. reflexivity. Qed.

Lemma X7_witness :
  let out := Mock.driver in
  let query := "CREATE TABLE t (id INT)"%string in
  let e := Mock.start ∅ (Mock.no_result_set 1700000000) in
  let e1 := snd (ensure_session out e) in
  let x := Exn TypeError "'NoneType' object is not iterable" None in
  ∃ e', execute_query out query e = (Raise x, e')
        ∧ trace e' = trace e1 ++ [EvLogDebug ("Executing query: " +:+ query);
                                  EvExecute query; EvDescription;
                                  EvLogError (query_failure_message query x)]
        ∧ self e' = self e1
        ∧ world e' = world e1.
Proof.
  intros out query e e1 x.
  assert (Hg : ensure_session out e = (Return (), e1)) by reflexivity.
  exact (X7_no_result_set out query e e1 1%nat (world e1) (world e1) Hg
           eq_refl eq_refl eq_refl).
Defined.

(** ** The report of Test Connection *)

Section RunSteps.
Context {W : Type}.

Lemma bind_return {A B} (m : M W A) (f : A → M W B) (e e1 : Env W) (a : A) :
  m e = (Return a, e1) → bind m f e = f a e1.
Proof. intros H. unfold bind. by rewrite H. Qed.

Lemma bind_raise {A B} (m : M W A) (f : A → M W B) (e e1 : Env W) x :
  m e = (Raise x, e1) → bind m f e = (Raise x, e1).
Proof. intros H. unfold bind. by rewrite H. Qed.

Lemma cursor_attr_some attr (e : Env W) cu :
  cursor (self e) = Some cu → cursor_attr attr e = (Return cu, e).
Proof. intros H. unfold cursor_attr, bind, get_self. simpl. by rewrite H. Qed.

Lemma call_return {A} ev (f : W → answer A * W) (e : Env W) a w :
  f (world e) = (Return a, w) →
  call ev f e
  = (Return a, Build_Env (self e) w (loop e) (trace e ++ [ev]) (event_loop e)).
Proof. intros H. unfold call. by rewrite H. Qed.

Lemma call_raise {A} ev (f : W → answer A * W) (e : Env W) x w :
  f (world e) = (Raise x, w) →
  call ev f e
  = (Raise x, Build_Env (self e) w (loop e) (trace e ++ [ev]) (event_loop e)).
Proof. intros H. unfold call. by rewrite H. Qed.

End RunSteps.

(** Runs the next statement of a suite whose answer is among the
    hypotheses. *)
Ltac run_statement :=
  first
    [ erewrite bind_return by (apply cursor_attr_some; simpl; eassumption)
    | erewrite bind_return by (apply call_return; simpl; eassumption)
    | erewrite bind_raise by (apply call_raise; simpl; eassumption) ].

Section Report.
Context {W : Type} (out : Outside W).

Lemma second_column_result (tables : list row) (e : Env W) :
  second_column tables e
  = if forallb (fun table => 2 <=? length table)%nat tables
    then (Return (map second tables), e)
    else (Raise (Exn IndexError "tuple index out of range" None), e).
Proof.
  set (F := fun table : row => (2 <=? length table)%nat).
  induction tables as [|table rest IH]; [done|].
  cbn [second_column forallb].
  destruct table as [|a [|b table]]; [done..|].
  change (F (a :: b :: table)) with true. cbn [andb lookup list_lookup].
  unfold bind. rewrite IH. by destruct (forallb F rest).
Qed.

(** X8.  When the driver answers both statements, [test_connection]
    reports success exactly if every row of SHOW TABLES has at least two
    values: the report then names the role, database and schema of the
    first answer and lists the second value of every row, in order, one
    per line after a dash.  A shorter row makes it report the failure
    "tuple index out of range" instead.  Either way the session object
    is the one the session check left. *)
Theorem X8_connection_report (e e1 : Env W) role database schema tables w :
  ensure_session out e = (Return (), e1) →
  driver_reports out e1 role database schema tables w →
  ∃ e',
    test_connection out e
    = (Return
         (if forallb (fun table => 2 <=? length table)%nat tables
          then (true,
                "Connection successful!" +:+ nl
                  +:+ "Role: " +:+ str_value role +:+ nl
                  +:+ "Database: " +:+ str_value database +:+ nl
                  +:+ "Schema: " +:+ str_value schema +:+ nl +:+ nl
                  +:+ "Available tables:" +:+ nl
                  +:+ String.concat nl
                        (map (fun table => "- " +:+ str_value (second table)) tables))
          else (false, "Connection test failed: tuple index out of range")), e')
    ∧ self e' = self e1
    ∧ world e' = w.
Proof.
  intros Hg (cu & w1 & w2 & w3 & Hcu & Hex1 & Hone & Hex2 & Hall).
  rewrite (test_connection_after_check out e e1 Hg).
  unfold try_except, test_queries.
  do 3 run_statement.
  erewrite bind_return; [| apply call_return; simpl; exact Hone].
  erewrite bind_return by reflexivity. cbv beta iota.
  do 4 run_statement. unfold bind. rewrite second_column_result.
  destruct (forallb (fun table => 2 <=? length table)%nat tables); simpl.
  - unfold ret, success_report. rewrite map_map.
    eexists. split; [reflexivity | done].
  - eexists. split; [reflexivity|]. done.
Qed.

(** X9.  When the first answer is not a row of exactly three values,
    [test_connection] reports the failure of the unpacking and never
    sends SHOW TABLES: no row at all is "cannot unpack non-iterable
    NoneType object", fewer than three values "not enough values to
    unpack (expected 3, got n)", more than three "too many values to
    unpack (expected 3)". *)
Theorem X9_first_answer_not_a_triple (e e1 : Env W) cu w1 r w2 :
  ensure_session out e = (Return (), e1) →
  cursor (self e1) = Some cu →
  cur_execute out cu "SELECT CURRENT_ROLE(), CURRENT_DATABASE(), CURRENT_SCHEMA()"
    (world e1) = (Return (), w1) →
  cur_fetchone out cu w1 = (Return r, w2) →
  (∀ l, r = Some l → length l ≠ 3%nat) →
  ∃ text e',
    test_connection out e = (Return (false, "Connection test failed: " +:+ text), e')
    ∧ match r with
      | None => text = "cannot unpack non-iterable NoneType object"
      | Some l =>
          if (length l <? 3)%nat
          then text = "not enough values to unpack (expected 3, got "
                        +:+ str_nat (length l) +:+ ")"
          else text = "too many values to unpack (expected 3)"
      end
    ∧ world e' = w2
    ∧ trace e' = trace e1
                   ++ [EvExecute "SELECT CURRENT_ROLE(), CURRENT_DATABASE(), CURRENT_SCHEMA()";
                       EvFetchone;
                       EvLogError ("Connection test failed: " +:+ text)].
Proof.
  intros Hg Hcu Hex1 Hone Hr.
  rewrite (test_connection_after_check out e e1 Hg).
  unfold try_except, test_queries.
  do 3 run_statement.
  erewrite bind_return; [| apply call_return; simpl; exact Hone].
  unfold bind at 1.
  destruct r as [[|a [|b [|c [|d l]]]]|]; simpl;
    try (exfalso; by eapply Hr);
    eexists _, _; (split; [reflexivity|]); simpl;
    rewrite <- !app_assoc; done.
Qed.

End Report.

Lemma X8_witness :
  let out := Mock.driver in
  let e := Mock.start ∅ (Mock.healthy 1700000000) in
  let tables := [[VInt 1; VStr "a"]; [VInt 2; VStr "b"]] in
  ∃ e',
    test_connection out e
    = (Return
         (if forallb (fun table => 2 <=? length table)%nat tables
          then (true,
                "Connection successful!" +:+ nl
                  +:+ "Role: " +:+ str_value (VStr "ANALYST") +:+ nl
                  +:+ "Database: " +:+ str_value (VStr "SALES") +:+ nl
                  +:+ "Schema: " +:+ str_value (VStr "PUBLIC") +:+ nl +:+ nl
                  +:+ "Available tables:" +:+ nl
                  +:+ String.concat nl
                        (map (fun table => "- " +:+ str_value (second table)) tables))
          else (false, "Connection test failed: tuple index out of range")), e')
    ∧ self e' = self (snd (ensure_session out e))
    ∧ world e' = world (snd (ensure_session out e)).
Proof.
  intros out e tables.
  assert (Hg : ensure_session out e = (Return (), snd (ensure_session out e)))
    by reflexivity.
  assert (Hr : driver_reports out (snd (ensure_session out e))
                 (VStr "ANALYST") (VStr "SALES") (VStr "PUBLIC") tables
                 (world (snd (ensure_session out e)))).
  { exists 1%nat. eexists _, _, _. repeat split; reflexivity. }
  exact (X8_connection_report out e _ _ _ _ tables _ Hg Hr).
Defined.

Lemma X9_witness :
  let out := Mock.driver in
  let e := Mock.start ∅ (Mock.ragged 1700000000) in
  let e1 := snd (ensure_session out e) in
  let r := Some [VStr "ANALYST"; VStr "SALES"] in
  ∃ text e',
    test_connection out e = (Return (false, "Connection test failed: " +:+ text), e')
    ∧ match r with
      | None => text = "cannot unpack non-iterable NoneType object"
      | Some l =>
          if (length l <? 3)%nat
          then text = "not enough values to unpack (expected 3, got "
                        +:+ str_nat (length l) +:+ ")"
          else text = "too many values to unpack (expected 3)"
      end
    ∧ world e' = world e1
    ∧ trace e' = trace e1
                   ++ [EvExecute "SELECT CURRENT_ROLE(), CURRENT_DATABASE(), CURRENT_SCHEMA()";
                       EvFetchone;
                       EvLogError ("Connection test failed: " +:+ text)].
Proof.
  intros out e e1 r.
  assert (Hg : ensure_session out e = (Return (), e1)) by reflexivity.
  assert (Hr : ∀ l : row, r = Some l → length l ≠ 3%nat).
  { intros l [= <-]. discriminate. }
  exact (X9_first_answer_not_a_triple out e e1 1%nat (world e1) r (world e1) Hg
           eq_refl eq_refl eq_refl Hr).
Defined.

(** ** What the operations keep *)

Section Kept.
Context {W : Type} (out : Outside W).

Global Instance timestamp_kept_preorder : PreOrder (@timestamp_kept W).
Proof.
  split.
  - intros e. exists []. by rewrite app_nil_r.
  - intros e1 e2 e3 (d1 & H1 & K1) (d2 & H2 & K2).
    exists (d1 ++ d2). split; [by rewrite H2, H1, app_assoc|].
    rewrite elem_of_app. intros Hno. rewrite K2, K1; tauto.
Qed.

Global Instance same_config_preorder : PreOrder (@same_config W).
Proof. split; [by intros e|]. intros e1 e2 e3 ? ?. unfold same_config in *. congruence. Qed.

Lemma quietly_timestamp_kept (e e' : Env W) : quietly e e' → timestamp_kept e e'.
Proof. intros ((_ & _ & Ha & _) & _ & d & Hd & _). by exists d. Qed.

Lemma quietly_same_config (e e' : Env W) : quietly e e' → same_config e e'.
Proof. by intros ((_ & _ & _ & Hc) & _). Qed.

Lemma init_database_timestamp_kept : steps timestamp_kept (_init_database out).
Proof.
  intros e. pose proof (init_database_cases out e) as H.
  destruct (snowflake_connect out _ (world e)) as [[c|x|[]] w1];
    [destruct (conn_cursor out c w1) as [[cu|x|[]] w2]|];
    rewrite H; simpl; eexists; (split; [reflexivity|]); simpl; try done.
  intros Hno. exfalso. apply Hno. repeat constructor.
Qed.

Lemma init_database_same_config : steps same_config (_init_database out).
Proof.
  intros e. pose proof (init_database_cases out e) as H.
  destruct (snowflake_connect out _ (world e)) as [[c|x|[]] w1];
    [destruct (conn_cursor out c w1) as [[cu|x|[]] w2]|]; by rewrite H.
Qed.

Lemma emit_timestamp_kept ev : steps timestamp_kept (@emit W ev).
Proof. intros e. by exists [ev]. Qed.

Lemma emit_same_config ev : steps same_config (@emit W ev).
Proof. by intros e. Qed.

Lemma run_loop_timestamp_kept : steps timestamp_kept (run_loop out).
Proof.
  apply (run_loop_keeps out timestamp_kept init_database_timestamp_kept
           (fun k => emit_timestamp_kept _)).
  intros e ts. exists []. by rewrite app_nil_r.
Qed.

Lemma run_loop_same_config : steps same_config (run_loop out).
Proof.
  by apply (run_loop_keeps out same_config init_database_same_config
              (fun k => emit_same_config _)).
Qed.

Lemma call_total_timestamp_kept {A} ev (f : W → A * W) :
  steps timestamp_kept (call_total ev f).
Proof. intros e. unfold call_total. destruct (f (world e)). by exists [ev]. Qed.

Lemma call_total_same_config {A} ev (f : W → A * W) :
  steps same_config (call_total ev f).
Proof. intros e. unfold call_total. by destruct (f (world e)). Qed.

Lemma ensure_session_timestamp_kept : steps timestamp_kept (ensure_session out).
Proof.
  pose proof init_database_timestamp_kept. pose proof run_loop_timestamp_kept.
  pose proof emit_timestamp_kept.
  pose proof (fun A => @call_total_timestamp_kept A).
  assert (∀ k, steps timestamp_kept (task_result out k))
    by (intros k; apply task_result_keeps; typeclasses eauto).
  unfold ensure_session, await_task. step_through.
Qed.

Lemma ensure_session_same_config : steps same_config (ensure_session out).
Proof.
  pose proof init_database_same_config. pose proof run_loop_same_config.
  pose proof emit_same_config.
  pose proof (fun A => @call_total_same_config A).
  assert (∀ k, steps same_config (task_result out k))
    by (intros k; apply task_result_keeps; typeclasses eauto).
  unfold ensure_session, await_task. step_through.
Qed.

(** Every operation keeps what the session check keeps and quiet steps
    keep. *)
Lemma run_op_keeps (R : relation (Env W)) `{!PreOrder R} :
  steps R (ensure_session out) →
  (∀ e e', quietly e e' → R e e') →
  (∀ e insight, R e (snd (add_insight insight e))) →
  (∀ e, R e (snd (start_init_connection e))) →
  ∀ o, steps R (run_op out o).
Proof.
  intros Hcheck Hquiet Hadd Hstart o e.
  destruct o as [|query|insight| |]; simpl; unfold bind.
  - pose proof (test_connection_after_check_quietly out e) as H.
    destruct (test_connection out e) as [[r|x|b] e']; simpl in *;
      (etransitivity; [apply Hcheck | by apply Hquiet]).
  - pose proof (execute_query_after_check_quietly out query e) as H.
    destruct (execute_query out query e) as [[r|x|b] e']; simpl in *;
      (etransitivity; [apply Hcheck | by apply Hquiet]).
  - apply Hadd.
  - pose proof (get_memo_same_state e) as H.
    destruct (get_memo e) as [[r|x|b] e']; simpl in *; subst; reflexivity.
  - specialize (Hstart e).
    by destruct (start_init_connection e) as [[k|x|b] e'].
Qed.

Lemma run_op_timestamp_kept (o : op) : steps timestamp_kept (run_op out o).
Proof.
  apply (run_op_keeps timestamp_kept ensure_session_timestamp_kept
           quietly_timestamp_kept).
  - intros e insight. exists []. by rewrite app_nil_r.
  - intros e. exists []. rewrite app_nil_r.
    split; [apply (start_init_connection_same e) | intros _].
    apply (start_init_connection_same e).
Qed.

Lemma run_op_same_config (o : op) : steps same_config (run_op out o).
Proof.
  apply (run_op_keeps same_config ensure_session_same_config quietly_same_config);
    [done|].
  intros e. apply (start_init_connection_same e).
Qed.

End Kept.

Section KeptTheorems.
Context {W : Type} (out : Outside W).

(** X10.  In every reachable state without a cursor handle the
    authentication timestamp is still 0.  So an object whose connection
    was opened but whose cursor never was is initialized again, once, by
    the next [execute_query] or [test_connection] that finds no task
    pending and the clock above 1800. *)
Theorem X10_no_cursor_no_timestamp (e : Env W) :
  reachable out e →
  cursor (self e) = None →
  auth_time (self e) = 0
  ∧ (∀ query,
       pending_task e = None →
       AUTH_EXPIRATION_TIME < fst (time_time out (world e)) →
       count_events is_init_enter (new_events (execute_query out query) e) = 1%nat
       ∧ count_events is_init_enter (new_events (test_connection out) e) = 1%nat).
Proof.
  intros Hr Hnone.
  assert (Hinv : cursor (self e) = None → auth_time (self e) = 0).
  { clear Hnone.
    assert (Hstep : ∀ e0 e1 : Env W,
               lifecycle e0 e1 → timestamp_kept e0 e1 →
               (cursor (self e0) = None → auth_time (self e0) = 0) →
               cursor (self e1) = None → auth_time (self e1) = 0).
    { intros e0 e1 (d1 & Hd1 & Hc & _) (d2 & Hd2 & Hk) IH Hcu.
      assert (d2 = d1) as -> by (apply (app_inv_head (trace e0)); congruence).
      assert (¬ (is_Some (cursor (self e0)) ∨ EvInitExit true ∈ d1)) as Hno.
      { intros H. apply Hc in H. rewrite Hcu in H. by destruct H. }
      rewrite Hk by tauto. apply IH.
      destruct (cursor (self e0)) eqn:H0; [|done]. exfalso. apply Hno. left. eauto. }
    induction Hr as [cfg w l|o e Hr IH|w e Hr IH|e Hr IH|k e Hr IH|l e Hr IH].
    - done.
    - exact (Hstep _ _ (run_op_lifecycle out o e) (run_op_timestamp_kept out o e) IH).
    - exact IH.
    - exact (Hstep _ _ (run_loop_lifecycle out e) (run_loop_timestamp_kept out e) IH).
    - exact IH.
    - exact IH. }
  split; [by apply Hinv|].
  intros query Hp Hclock.
  assert (Hstale : session_stale out e).
  { right. rewrite (Hinv Hnone). lia. }
  pose proof (session_contract_after_check out (execute_query out query) e
                (execute_query_after_check_quietly out query e)) as [_ H1].
  pose proof (session_contract_after_check out (test_connection out) e
                (test_connection_after_check_quietly out e)) as [_ H2].
  pose proof (proj2 (nothing_pending_task e) Hp) as Hno. clear Hp.
  rename Hno into Hp.
  destruct (H1 Hp) as (_ & _ & H1' & _). destruct (H2 Hp) as (_ & _ & H2' & _).
  auto.
Qed.

(** X11.  No operation, and no turn of the event loop, ever drops a
    handle: a connection handle that exists still exists afterwards,
    and so does a cursor handle. *)
Theorem X11_handles_never_dropped (o : op) (e : Env W) :
  (is_Some (connection (self e)) → is_Some (connection (self (snd (run_op out o e)))))
  ∧ (is_Some (cursor (self e)) → is_Some (cursor (self (snd (run_op out o e)))))
  ∧ (is_Some (connection (self e)) → is_Some (connection (self (snd (run_loop out e)))))
  ∧ (is_Some (cursor (self e)) → is_Some (cursor (self (snd (run_loop out e))))).
Proof.
  destruct (run_op_lifecycle out o e) as (d1 & _ & Hc1 & Hk1 & _).
  destruct (run_loop_lifecycle out e) as (d2 & _ & Hc2 & Hk2 & _).
  tauto.
Qed.

(** X12.  The configuration given at construction is never changed by
    an operation or by the event loop.  [add_insight], [get_memo] and
    [start_init_connection] call nothing outside: the world and the
    trace are as before, and so are both handles and the timestamp. *)
Theorem X12_configuration_and_untouched_state (o : op) (e : Env W) :
  connection_config (self (snd (run_op out o e))) = connection_config (self e)
  ∧ connection_config (self (snd (run_loop out e))) = connection_config (self e)
  ∧ match o with
    | OpTestConnection | OpExecuteQuery _ => True
    | _ =>
        world (snd (run_op out o e)) = world e
        ∧ trace (snd (run_op out o e)) = trace e
        ∧ connection (self (snd (run_op out o e))) = connection (self e)
        ∧ cursor (self (snd (run_op out o e))) = cursor (self e)
        ∧ auth_time (self (snd (run_op out o e))) = auth_time (self e)
    end.
Proof.
  split; [apply run_op_same_config|]. split; [apply run_loop_same_config|].
  destruct o as [|query|insight| |]; try done.
  - simpl. unfold bind. pose proof (get_memo_same_state e) as H.
    destruct (get_memo e) as [[r|x|b] e']; simpl in *; by subst.
  - rewrite run_op_start.
    destruct (start_init_connection_same e) as (? & ? & ? & ? & ? & _). done.
Qed.

(** X13.  Started in the same state, [test_connection] and
    [execute_query] leave the same handles, timestamp and tasks, and
    make the same number of calls of every kind that belongs to the
    connection life cycle (initializations, connections, cursors, task
    runs). *)
Theorem X13_same_session_check (query : string) (e : Env W) :
  let e1 := snd (test_connection out e) in
  let e2 := snd (execute_query out query e) in
  connection (self e1) = connection (self e2)
  ∧ cursor (self e1) = cursor (self e2)
  ∧ auth_time (self e1) = auth_time (self e2)
  ∧ init_task (self e1) = init_task (self e2)
  ∧ loop e1 = loop e2
  ∧ ∀ p : event → bool,
      (∀ ev, p ev = true → is_lifecycle ev = true) →
      count_events p (new_events (test_connection out) e)
      = count_events p (new_events (execute_query out query) e).
Proof.
  intros e1 e2.
  destruct (test_connection_after_check_quietly out e)
    as ((Hc1 & Hcu1 & Ha1 & _) & (Hi1 & Hl1) & d1 & Hd1 & Hq1).
  destruct (execute_query_after_check_quietly out query e)
    as ((Hc2 & Hcu2 & Ha2 & _) & (Hi2 & Hl2) & d2 & Hd2 & Hq2).
  subst e1 e2. repeat split; try congruence.
  intros p Hp.
  destruct (ensure_session_check_events out e) as (dc & Hdc & _).
  rewrite (new_events_grown (test_connection out) e (dc ++ d1))
    by (rewrite Hd1, Hdc, <- app_assoc; done).
  rewrite (new_events_grown (execute_query out query) e (dc ++ d2))
    by (rewrite Hd2, Hdc, <- app_assoc; done).
  rewrite !count_events_app.
  by rewrite (count_events_quiet p d1 Hp Hq1), (count_events_quiet p d2 Hp Hq2).
Qed.

End KeptTheorems.

Lemma X10_witness :
  let e := Mock.half_open in
  let w := Mock.healthy 1700000060 in
  is_Some (connection (self e))
  ∧ auth_time (self e) = 0
  ∧ count_events is_init_enter
      (new_events (execute_query Mock.driver "SELECT 1") (with_world w e)) = 1%nat.
Proof.
  intros e w. split; [by eexists|].
  assert (Hr : reachable Mock.driver (with_world w e)).
  { apply reach_world, reach_op, reach_new. }
  destruct (X10_no_cursor_no_timestamp Mock.driver (with_world w e) Hr eq_refl)
    as [Hzero Hnext].
  split; [exact Hzero|].
  apply (Hnext "SELECT 1"%string); [reflexivity | vm_compute; reflexivity].
Defined.

(** ** Background initialization *)







Section Background.
Context {W : Type} (out : Outside W).











End Background.


(** The second half of X14 on a concrete run: the task was created on
    loop 0 and the query runs in loop 1. *)
Example await_in_another_loop :
  let out := Mock.driver in
  fst (execute_query out "SELECT 1" Mock.moved)
  = Raise (Exn RuntimeError (different_loop_text out 0) None)
  ∧ new_events (execute_query out "SELECT 1") Mock.moved = [EvAwait 0]
  ∧ loop (snd (execute_query out "SELECT 1" Mock.moved)) = [Task 0 TaskPending]
  ∧ new_events (test_connection out) Mock.moved
    = [EvAwait 0;
       EvLogError ("Connection test failed: " +:+ different_loop_text out 0)].
Proof. vm_compute. done. Qed.

(** ** The bootstrap script *)

Lemma lookup_set_if_truthy (environ : gmap string string) (key name k : string)
    (config : gmap string string) :
  set_if_truthy environ key name config !! k
  = if decide (key = k)
    then match getenv_truthy environ name with
         | Some v => Some v
         | None => config !! k
         end
    else config !! k.
Proof.
  unfold set_if_truthy. destruct (getenv_truthy environ name) as [v|].
  - rewrite lookup_insert. by case_decide.
  - by case_decide.
Qed.

Lemma getenv_truthy_not_empty (environ : gmap string string) (name v : string) :
  getenv_truthy environ name = Some v → environ !! name = Some v ∧ v ≠ ""%string.
Proof.
  unfold getenv_truthy. destruct (environ !! name) as [[|a s]|]; try done.
  by intros [= <-].
Qed.

Lemma getenv_truthy_insert_ne (environ : gmap string string) (name name' v : string) :
  name' ≠ name → getenv_truthy (<[name' := v]> environ) name = getenv_truthy environ name.
Proof. intros Hne. unfold getenv_truthy. by rewrite lookup_insert_ne. Qed.

(** The configuration, one entry after the other. *)
Lemma connection_config_of_unfold (environ : gmap string string) :
  connection_config_of environ
  = set_if_truthy environ "private_key_passphrase" "SNOWFLAKE_PRIVATE_KEY_PASSPHRASE"
      (set_if_truthy environ "private_key_path" "SNOWFLAKE_PRIVATE_KEY_PATH"
         (set_if_truthy environ "role" "SNOWFLAKE_ROLE"
            (set_if_truthy environ "warehouse" "SNOWFLAKE_WAREHOUSE"
               (set_if_truthy environ "schema" "SNOWFLAKE_SCHEMA"
                  (set_if_truthy environ "database" "SNOWFLAKE_DATABASE"
                     (set_if_truthy environ "user" "SNOWFLAKE_USER"
                        (set_if_truthy environ "account" "SNOWFLAKE_ACCOUNT" ∅))))))).
Proof. reflexivity. Qed.

(** X15.  The configuration the script builds has an entry for each of
    the eight names exactly when the environment variable of that name
    is set to a non-empty text, which is then its value; a variable set
    to the empty text counts as unset.  It has no other entry, and no
    other environment variable (a password, an authenticator) has any
    influence on it. *)
Theorem X15_configuration_from_environment (environ : gmap string string) :
  let config := connection_config_of environ in
  config !! "account" = getenv_truthy environ "SNOWFLAKE_ACCOUNT"
  ∧ config !! "user" = getenv_truthy environ "SNOWFLAKE_USER"
  ∧ config !! "database" = getenv_truthy environ "SNOWFLAKE_DATABASE"
  ∧ config !! "schema" = getenv_truthy environ "SNOWFLAKE_SCHEMA"
  ∧ config !! "warehouse" = getenv_truthy environ "SNOWFLAKE_WAREHOUSE"
  ∧ config !! "role" = getenv_truthy environ "SNOWFLAKE_ROLE"
  ∧ config !! "private_key_path" = getenv_truthy environ "SNOWFLAKE_PRIVATE_KEY_PATH"
  ∧ config !! "private_key_passphrase"
    = getenv_truthy environ "SNOWFLAKE_PRIVATE_KEY_PASSPHRASE"
  ∧ (∀ k, k ∉ ["account"; "user"; "database"; "schema"; "warehouse"; "role";
               "private_key_path"; "private_key_passphrase"] →
          config !! k = None)
  ∧ (∀ k v, config !! k = Some v → v ≠ ""%string)
  ∧ (∀ name v,
       name ∉ ["SNOWFLAKE_ACCOUNT"; "SNOWFLAKE_USER"; "SNOWFLAKE_DATABASE";
               "SNOWFLAKE_SCHEMA"; "SNOWFLAKE_WAREHOUSE"; "SNOWFLAKE_ROLE";
               "SNOWFLAKE_PRIVATE_KEY_PATH"; "SNOWFLAKE_PRIVATE_KEY_PASSPHRASE"] →
       connection_config_of (<[name := v]> environ) = connection_config_of environ).
Proof.
  intros config. subst config. rewrite connection_config_of_unfold.
  assert (Hlook : ∀ k,
            set_if_truthy environ "private_key_passphrase" "SNOWFLAKE_PRIVATE_KEY_PASSPHRASE"
              (set_if_truthy environ "private_key_path" "SNOWFLAKE_PRIVATE_KEY_PATH"
                 (set_if_truthy environ "role" "SNOWFLAKE_ROLE"
                    (set_if_truthy environ "warehouse" "SNOWFLAKE_WAREHOUSE"
                       (set_if_truthy environ "schema" "SNOWFLAKE_SCHEMA"
                          (set_if_truthy environ "database" "SNOWFLAKE_DATABASE"
                             (set_if_truthy environ "user" "SNOWFLAKE_USER"
                                (set_if_truthy environ "account" "SNOWFLAKE_ACCOUNT" ∅)))))))
              !! k
            = if decide ("private_key_passphrase"%string = k)
              then getenv_truthy environ "SNOWFLAKE_PRIVATE_KEY_PASSPHRASE"
              else if decide ("private_key_path"%string = k)
              then getenv_truthy environ "SNOWFLAKE_PRIVATE_KEY_PATH"
              else if decide ("role"%string = k)
              then getenv_truthy environ "SNOWFLAKE_ROLE"
              else if decide ("warehouse"%string = k)
              then getenv_truthy environ "SNOWFLAKE_WAREHOUSE"
              else if decide ("schema"%string = k)
              then getenv_truthy environ "SNOWFLAKE_SCHEMA"
              else if decide ("database"%string = k)
              then getenv_truthy environ "SNOWFLAKE_DATABASE"
              else if decide ("user"%string = k)
              then getenv_truthy environ "SNOWFLAKE_USER"
              else if decide ("account"%string = k)
              then getenv_truthy environ "SNOWFLAKE_ACCOUNT"
              else None).
  { intros k. rewrite !lookup_set_if_truthy, lookup_empty.
    repeat (case_decide;
            [subst k; repeat (case_decide; [discriminate|]);
             by destruct (getenv_truthy environ _) |]).
    done. }
  do 8 (split; [by rewrite Hlook|]).
  split; [|split].
  - intros k Hk. rewrite Hlook.
    repeat case_decide; try done; subst k; exfalso; apply Hk; repeat constructor.
  - intros k v. rewrite Hlook.
    repeat case_decide; try done; by intros [_ ?]%getenv_truthy_not_empty.
  - intros name v Hname. rewrite connection_config_of_unfold.
    unfold set_if_truthy.
    rewrite !(getenv_truthy_insert_ne environ _ name v); [done|..];
      intros ->; apply Hname; repeat constructor.
Qed.

Section BootstrapRun.
Context {W : Type} (out : Outside W).


End BootstrapRun.

(** ** Reading the memo back *)

Lemma string_drop_app (a b : string) : string_drop (String.length a) (a +:+ b) = b.
Proof.
  induction a as [|x a IH]; [by destruct b|].
  change (string_drop (String.length a) (a +:+ b) = b). exact IH.
Qed.

Lemma append_empty_r (s : string) : s +:+ "" = s.
Proof.
  induction s as [|a s IH]; [done|].
  change (String a (s +:+ "") = String a s). by rewrite IH.
Qed.

Lemma split_lines_one_line (s : string) : one_line s = true → split_lines s = [s].
Proof.
  induction s as [|a s IH]; [done|]. simpl.
  intros [Ha Hs]%andb_prop. apply negb_true_iff in Ha. rewrite Ha.
  by rewrite (IH Hs).
Qed.

Lemma split_lines_app_nl (s t : string) :
  one_line s = true → split_lines (s +:+ nl +:+ t) = s :: split_lines t.
Proof.
  induction s as [|a s IH]; [done|]. simpl.
  intros [Ha Hs]%andb_prop. apply negb_true_iff in Ha.
  change (split_lines (String a (s +:+ nl +:+ t)) = String a s :: split_lines t).
  simpl. rewrite Ha. by rewrite (IH Hs).
Qed.

(** The listing is read back whatever follows it after an empty line. *)
Lemma read_split_listing (l : list string) (tail : string) :
  l ≠ [] → forallb one_line l = true →
  tail = ""%string ∨ (∃ r, tail = nl +:+ nl +:+ r) →
  read_listing (split_lines (insight_listing l +:+ tail)) = l.
Proof.
  intros Hne Hl Htail. induction l as [|i [|j rest] IH]; [done| |].
  - simpl in Hl. apply andb_prop in Hl as [Hi _].
    assert (Hline : one_line ("- " +:+ i) = true) by exact Hi.
    destruct Htail as [-> | [r ->]].
    + cbn [insight_listing]. rewrite append_empty_r.
      rewrite (split_lines_one_line _ Hline). done.
    + cbn [insight_listing].
      transitivity (read_listing (("- " +:+ i) :: split_lines (nl +:+ r))); [|done].
      f_equal. exact (split_lines_app_nl ("- " +:+ i) (nl +:+ r) Hline).
  - cbn [forallb] in Hl. apply andb_prop in Hl as [Hi Hrest].
    assert (Hline : one_line ("- " +:+ i) = true) by exact Hi.
    cbn [insight_listing].
    change (("- " +:+ i +:+ nl +:+ insight_listing (j :: rest)) +:+ tail)
      with ("- " +:+ ((i +:+ nl +:+ insight_listing (j :: rest)) +:+ tail)).
    rewrite !append_assoc.
    transitivity (read_listing (("- " +:+ i)
                    :: split_lines (insight_listing (j :: rest) +:+ tail))).
    { f_equal. exact (split_lines_app_nl ("- " +:+ i) _ Hline). }
    cbn [read_listing].
    change (after_dash ("- " +:+ i)) with (Some i).
    by rewrite IH.
Qed.

Lemma memo_not_placeholder (body : string) :
  String.eqb (memo_header +:+ body) "No data insights have been discovered yet." = false.
Proof. reflexivity. Qed.

Section ReadMemo.
Context {W : Type}.

(** X17.  As long as no insight contains a line break, the memo shows
    the whole log: reading the insights back from the text that
    [get_memo] returns (nothing for the placeholder, else the lines after
    the header that start with a dash) gives the log itself, in order,
    so two sessions whose memos are equal hold equal logs. *)
Theorem X17_memo_shows_the_log (e : Env W) :
  forallb one_line (insights (self e)) = true →
  ∃ memo, get_memo e = (Return memo, e)
          ∧ read_memo memo = insights (self e)
          ∧ ∀ e2 : Env W, forallb one_line (insights (self e2)) = true →
                          fst (get_memo e2) = Return memo →
                          insights (self e2) = insights (self e).
Proof.
  assert (Hread : ∀ e : Env W, forallb one_line (insights (self e)) = true →
            ∃ memo, get_memo e = (Return memo, e)
                    ∧ read_memo memo = insights (self e)).
  { clear e. intros e Hl. unfold get_memo, bind, get_self, ret.
    destruct (insights (self e)) as [|i rest] eqn:Hlog.
    - by eexists.
    - eexists. split; [reflexivity|].
      rewrite concat_listing.
      destruct rest as [|j rest].
      + cbn [length Nat.ltb Nat.leb]. unfold read_memo.
        rewrite memo_not_placeholder, string_drop_app.
        rewrite <- (append_empty_r (insight_listing [i])).
        apply read_split_listing; [done | done | by left].
      + cbn [length Nat.ltb Nat.leb]. unfold read_memo.
        rewrite append_assoc.
        rewrite memo_not_placeholder, string_drop_app.
        apply read_split_listing; [done | done |].
        right. by eexists. }
  intros Hl. destruct (Hread e Hl) as (memo & Hrun & Hback).
  exists memo. split; [done|]. split; [done|].
  intros e2 Hl2 Hsame. destruct (Hread e2 Hl2) as (memo2 & Hrun2 & Hback2).
  rewrite Hrun2 in Hsame. simpl in Hsame. injection Hsame as ->.
  by rewrite <- Hback2, <- Hback.
Qed.

End ReadMemo.

Lemma X17_witness :
  let e := snd (add_insight "Revenue doubled in Q3"
                  (snd (add_insight "Churn is seasonal"
                          (Mock.start ∅ (Mock.healthy 0))))) in
  forallb one_line (insights (self e)) = true
  ∧ ∃ memo, get_memo e = (Return memo, e)
            ∧ read_memo memo = insights (self e)
            ∧ ∀ e2 : Env Mock.world, forallb one_line (insights (self e2)) = true →
                            fst (get_memo e2) = Return memo →
                            insights (self e2) = insights (self e).
Proof.
  intros e.
  assert (H : forallb one_line (insights (self e)) = true) by reflexivity.
  split; [exact H|]. exact (X17_memo_shows_the_log e H).
Defined.

(** With line breaks in the insights, two different logs can give the
    same memo. *)
Example memo_of_broken_lines :
  let e0 := Mock.start ∅ (Mock.healthy 0) in
  let e1 := snd (add_insight "c" (snd (add_insight ("a" +:+ nl +:+ "- b") e0))) in
  let e2 := snd (add_insight ("b" +:+ nl +:+ "- c") (snd (add_insight "a" e0))) in
  insights (self e1) ≠ insights (self e2)
  ∧ fst (get_memo e1) = fst (get_memo e2).
Proof. split; [discriminate | reflexivity]. Qed.

(** An environment with an empty warehouse and no role, database or
    schema: three entries.  On a healthy server the script calls
    [print] once, with a report of eight lines. *)
Example configuration_of_environ :
  connection_config_of Mock.environ
  = {[ "account" := "acme-eu1"; "user" := "ANALYST";
       "private_key_path" := "/keys/rsa_key.p8" ]}%string
  ∧ fst (fst (main Mock.driver Mock.environ (Mock.healthy 0) 0)) = Return ()
  ∧ map (fun message => length (split_lines message))
        (snd (fst (main Mock.driver Mock.environ (Mock.healthy 0) 0)))
    = [8%nat].
Proof. split; [by vm_compute | split; reflexivity]. Qed.
